(** * MarketBasketChallenge: the external-memory pair-count pipeline

    A shallow embedding of [SimonNorton_MarketBasket.py]: the chunker
    ([create_subfiles]), basket assembly ([proc_baskets]), the per-chunk
    pair counter ([count_product_tuples]), the cross-chunk merger
    ([proc_subdata]) and the script body ([main]).

    Conventions of the embedding.
    - Text files are lists of lines; a line carries its line terminator.
    - The working directory is a record of finite maps from file names to
      contents, one map per kind of file the script handles.
    - Python exceptions are an explicit [result]; the [while] loop of the
      chunker, which need not terminate, takes fuel.
    - Python dictionaries whose iteration order reaches a file are
      insertion-ordered association lists; a dictionary that is only read
      through [sorted] is a [gmap].
    - A pandas DataFrame is the list of its rows, the row labels being the
      positions [0 .. n-1]; reading a pair-count file back gives the rows
      that were written to it.  That is what [pd.read_csv] does when it
      leaves the product columns as text, or reads them as integers that
      print as they were written, and the counts stay within the integers
      a float holds exactly ([read_back]); statements about the merger
      that depend on it carry that condition.
    - [csv.reader] is embedded for lines without quoting ([plain_line]);
      what does not depend on how a line is cut into fields is stated over
      the rows the reader yields ([baskets_of_rows]).
    - Where Python leaves an order open (the iteration of a [set], the
      listing of [glob.glob]) the definitions take one enumeration; the
      variants [proc_baskets_in], [main_in] take the enumeration as a
      parameter. *)

From Stdlib Require Import ZArith String Ascii DecimalString DecimalNat.
From stdpp Require Import prelude strings gmap sorting.

Local Open Scope Z_scope.

(** ** Python built-ins used by the script *)

Module Py.

(** Exceptions the script can meet. *)
Inductive exn := IndexError | OSError.

Inductive result (A : Type) :=
| Ok (a : A)
| Raise (e : exn).
Arguments Ok {A} a.
Arguments Raise {A} e.

Definition bind {A B} (r : result A) (k : A → result B) : result B :=
  match r with
  | Ok a => k a
  | Raise e => Raise e
  end.

(** [str(n)] for a non-negative integer. *)
Definition str (n : nat) : string := NilEmpty.string_of_uint (Nat.to_uint n).

Fixpoint repeat_char (c : ascii) (n : nat) : string :=
  match n with
  | O => ""
  | S n' => String c (repeat_char c n')
  end.

(** [s.rjust(width, fill)] *)
Definition rjust (width : nat) (fill : ascii) (s : string) : string :=
  repeat_char fill (width - String.length s)%nat +:+ s.

(** [s.replace(old, new)] for a non-empty [old]: every non-overlapping
    occurrence, leftmost first.  [skip] counts the characters of a matched
    occurrence that are still to be passed over. *)
Fixpoint replace_from (old new : string) (skip : nat) (s : string) : string :=
  match s with
  | EmptyString => EmptyString
  | String c s' =>
      match skip with
      | S k => replace_from old new k s'
      | O =>
          if String.prefix old s
          then new +:+ replace_from old new (String.length old - 1)%nat s'
          else String c (replace_from old new O s')
      end
  end.

Definition replace (old new s : string) : string := replace_from old new O s.

(** [sorted(l)]: a stable sort for the order [leb]. *)
Section Sorted.
Context {A : Type} (leb : A → A → bool).

Fixpoint insort (x : A) (l : list A) : list A :=
  match l with
  | [] => [x]
  | y :: l' => if leb x y then x :: l else y :: insort x l'
  end.

Definition sorted (l : list A) : list A := foldr insort [] l.
End Sorted.

(** Order of Python tuples of two strings. *)
Definition tuple_leb (a b : string * string) : bool :=
  String.ltb a.1 b.1 || ((a.1 =? b.1)%string && String.leb a.2 b.2).

(** [set(l)] is only ever iterated through [sorted], so any enumeration of
    the distinct elements will do. *)
Definition set (l : list string) : list string := remove_dups l.

End Py.
Import Py.

(** ** Files *)

Definition nl : string := String (ascii_of_nat 10) "".

(** The three columns of a pair-count file and of the report. *)
Record count_row := CountRow {
  Product_1 : string;
  Product_2 : string;
  num_baskets : Z
}.

Definition row_key (r : count_row) : string * string := (Product_1 r, Product_2 r).

(** The key column pair of a frame, row by row. *)
Abbreviation keys df := (row_key <$> df).

(** The files of the working directory the script touches:
    - [subdata]: the chunk files [subdata_NNN.csv], as lines;
    - [tuplecount]: the pair-count files [subdata_NNN_tuplecount.csv];
    - [report]: the report file, [None] while it does not exist (the header
      line is implied by [Some]). *)
Record workdir := WorkDir {
  subdata : gmap string (list string);
  tuplecount : gmap string (list count_row);
  report : option (list count_row)
}.

Definition empty_dir : workdir := WorkDir ∅ ∅ None.

(** [for f in glob.glob('subdata*.csv'): os.remove(f)]: the pattern matches
    the chunk files and the pair-count files alike. *)
Definition remove_subdata (wd : workdir) : workdir :=
  WorkDir ∅ ∅ (report wd).

(** What one [readline] on the decompressed input finds next: a line, or a
    failure of the underlying read (truncated archive, undecodable bytes). *)
Inductive read := Line (s : string) | ReadError.

(** ** create_subfiles *)

Definition subfile_name (subfile_counter : nat) : string :=
  "subdata_" +:+ rjust 3 "0" (str subfile_counter) +:+ ".csv".

(** The inner loop [while line_counter <= line_limit].  Returns the lines
    of [out_f] and either the exception raised by [readline] or the values
    of [current_line] and of the input at loop exit. *)
Fixpoint fill_subfile (line_limit : Z) (gzip_f : list read) (line_counter : Z)
    (current_line : string) (out_f : list string)
    : list string * result (string * list read) :=
  if (line_counter <=? line_limit)%Z then
    let out_f := out_f ++ [current_line] in
    let writ_basket := current_line in
    match gzip_f with
    | [] => (out_f, Ok ("", []))
    | ReadError :: _ => (out_f, Raise OSError)
    | Line current_line :: gzip_f =>
        if (current_line =? "")%string then (out_f, Ok ("", gzip_f))
        else if (line_counter =? line_limit)%Z && (current_line =? writ_basket)%string
        then fill_subfile line_limit gzip_f line_counter current_line out_f
        else fill_subfile line_limit gzip_f (line_counter + 1) current_line out_f
    end
  else (out_f, Ok (current_line, gzip_f)).

(** The outer loop [while current_line].  [None]: the fuel ran out. *)
Fixpoint chunk_loop (fuel : nat) (line_limit : Z) (gzip_f : list read)
    (current_line : string) (subfile_counter : nat)
    (files : gmap string (list string))
    : option (gmap string (list string) * result ()) :=
  if (current_line =? "")%string then Some (files, Ok ())
  else
    match fuel with
    | O => None
    | S fuel =>
        let subfile := subfile_name subfile_counter in
        (* open(subfile, 'at'): append to whatever the file holds *)
        let '(out_f, r) :=
          fill_subfile line_limit gzip_f 0 current_line (files !!! subfile) in
        let files := <[subfile := out_f]> files in
        match r with
        | Raise e => Some (files, Raise e)
        | Ok (current_line, gzip_f) =>
            chunk_loop fuel line_limit gzip_f current_line (S subfile_counter) files
        end
    end.

(** [create_subfiles(gzip_filename, line_limit)]: the flag returned and the
    working directory left behind. *)
Definition create_subfiles (fuel : nat) (gzip_file : list read) (line_limit : Z)
    (wd : workdir) : option (bool * workdir) :=
  let wd := remove_subdata wd in
  let first :=
    match gzip_file with
    | [] => Ok ("", [])
    | ReadError :: _ => Raise OSError
    | Line s :: rest => Ok (s, rest)
    end in
  match first with
  | Raise _ => Some (false, wd)
  | Ok (current_line, gzip_f) =>
      match chunk_loop fuel line_limit gzip_f current_line 1 (subdata wd) with
      | None => None
      | Some (files, Ok _) => Some (true, WorkDir files (tuplecount wd) (report wd))
      | Some (files, Raise _) => Some (false, WorkDir files (tuplecount wd) (report wd))
      end
  end.

Example subfile_name_7 : subfile_name 7 = "subdata_007.csv".
Proof. reflexivity. Qed.

Example replace_csv :
  replace ".csv" "_tuplecount.csv" "subdata_007.csv" = "subdata_007_tuplecount.csv".
Proof. reflexivity. Qed.

(** ** proc_baskets *)

(** [csv.reader] on one line, for lines without quoting ([plain_line]
    below): the line terminator is dropped, the rest is cut at the commas,
    and a blank line gives the empty row.  A double quote opens a field
    that may hold commas and line ends; such lines are outside this
    definition, and no statement about a file with quotes relies on it. *)
Fixpoint chomp (line : string) : string :=
  match line with
  | EmptyString => EmptyString
  | String c line' =>
      if (c =? ascii_of_nat 10)%char || (c =? ascii_of_nat 13)%char
      then EmptyString
      else String c (chomp line')
  end.

Fixpoint fields (s : string) : list string :=
  match s with
  | EmptyString => [EmptyString]
  | String c s' =>
      if (c =? ",")%char then EmptyString :: fields s'
      else
        match fields s' with
        | f :: fs => String c f :: fs
        | [] => [String c EmptyString]
        end
  end.

Definition csv_row (line : string) : list string :=
  let s := chomp line in
  if (s =? "")%string then [] else fields s.

Definition csv_reader (f : list string) : list (list string) := csv_row <$> f.

(** The body of [for row in csv_f]; [row[0]] raises on an empty row. *)
Definition add_row (basket_dict : gmap string (list string)) (row : list string)
    : result (gmap string (list string)) :=
  match row with
  | [] => Raise IndexError
  | row0 :: row1 =>
      match basket_dict !! row0 with
      | None => Ok (<[row0 := row1]> basket_dict)
      | Some products => Ok (<[row0 := products ++ row1]> basket_dict)
      end
  end.

Fixpoint read_baskets (csv_f : list (list string))
    (basket_dict : gmap string (list string))
    : result (gmap string (list string)) :=
  match csv_f with
  | [] => Ok basket_dict
  | row :: csv_f => bind (add_row basket_dict row) (read_baskets csv_f)
  end.

(** [d.update({k : v})] on an insertion-ordered dictionary. *)
Fixpoint dict_update {K V : Type} `{EqDecision K} (k : K) (v : V)
    (d : list (K * V)) : list (K * V) :=
  match d with
  | [] => [(k, v)]
  | (k', v') :: d' =>
      if decide (k = k') then (k, v) :: d' else (k', v') :: dict_update k v d'
  end.

(** [sorted([(e1, e2) for e1 in contents for e2 in contents if e1 < e2])] *)
Definition basket_tuples (contents : list string) : list (string * string) :=
  sorted tuple_leb
    (e1 ← contents; e2 ← contents; if String.ltb e1 e2 then [(e1, e2)] else []).

Definition deduped (basket_dict : gmap string (list string))
    : list (string * list string) :=
  (λ key, (key, sorted String.leb (set (basket_dict !!! key))))
    <$> sorted String.leb (map_to_list basket_dict).*1.

(** The body of [proc_baskets] from [for row in csv_f] on, given the rows
    the reader yields. *)
Definition baskets_of_rows (csv_f : list (list string))
    : result (list (string * list (string * string))) :=
  bind (read_baskets csv_f ∅) (λ basket_dict,
    Ok (foldl
          (λ file_of_baskets bc, dict_update bc.1 (basket_tuples bc.2) file_of_baskets)
          [] (deduped basket_dict))).

(** [proc_baskets(subfile)], given the lines of [subfile]. *)
Definition proc_baskets (f : list string)
    : result (list (string * list (string * string))) :=
  baskets_of_rows (csv_reader f).

(** ** count_product_tuples *)

(** [d[k] += v] on a [Counter] or a [defaultdict(int)]. *)
Fixpoint dict_add {K : Type} `{EqDecision K} (k : K) (v : Z)
    (d : list (K * Z)) : list (K * Z) :=
  match d with
  | [] => [(k, 0 + v)]
  | (k', n) :: d' =>
      if decide (k = k') then (k', n + v) :: d' else (k', n) :: dict_add k v d'
  end.

Definition Counter {K : Type} `{EqDecision K} (l : list K) : list (K * Z) :=
  foldl (λ c k, dict_add k 1 c) [] l.

Definition count_file_name (subfile : string) : string :=
  replace ".csv" "_tuplecount.csv" subfile.

(** The rows [count_product_tuples] writes for the baskets of one chunk. *)
Definition tuple_count_rows (file_of_baskets : list (string * list (string * string)))
    : list count_row :=
  let tuple_counts_for_subfile := Counter (mjoin file_of_baskets.*2) in
  let summed_tuples :=
    foldl (λ summed kv, dict_add kv.1 kv.2 summed) [] tuple_counts_for_subfile in
  (λ row, CountRow row.1.1 row.1.2 row.2) <$> summed_tuples.

(** [count_product_tuples(subfile, file_of_baskets)]: the count file is
    opened with ['wt'], so an older file of that name is replaced. *)
Definition count_product_tuples (subfile : string)
    (file_of_baskets : list (string * list (string * string)))
    (wd : workdir) : workdir :=
  WorkDir (subdata wd)
    (<[count_file_name subfile := tuple_count_rows file_of_baskets]> (tuplecount wd))
    (report wd).

(** ** proc_subdata *)

Module Pandas.

Abbreviation DataFrame := (list count_row).

(** A row of [pd.merge(left, right, on=['Product_1', 'Product_2'])]: the
    key and the two count columns [num_baskets_x], [num_baskets_y]; after
    a left merge the second one is [None] (NaN) for a row without match. *)
Abbreviation merged_row Y := ((string * string) * Z * Y)%type.

(** The inner merge keeps the order of the left frame. *)
Definition merge (left right : DataFrame) : list (merged_row Z) :=
  l ← left; r ← right;
  if decide (row_key l = row_key r)
  then [(row_key l, num_baskets l, num_baskets r)] else [].

(** [pd.merge(left, right, on=..., how='left')] *)
Definition merge_left (left right : DataFrame) : list (merged_row (option Z)) :=
  l ← left;
  match filter (λ r, row_key l = row_key r) right with
  | [] => [(row_key l, num_baskets l, None)]
  | matches => (λ r, (row_key l, num_baskets l, Some (num_baskets r))) <$> matches
  end.

(** [df.assign(num_baskets=df[[x, y]].sum(1)).drop([x, y], axis=1)].
    The counts are integers here; pandas adds in int64 and takes the row
    maximum below in float64, which is the same as long as the counts stay
    within the integers a float holds exactly (see [read_back]). *)
Definition assign_sum (df : list (merged_row Z)) : DataFrame :=
  (λ r, CountRow r.1.1.1 r.1.1.2 (r.1.2 + r.2)) <$> df.

(** [df.assign(num_baskets=df[[x, y]].max(1)).drop([x, y], axis=1)]:
    the row maximum skips NaN. *)
Definition assign_max (df : list (merged_row (option Z))) : DataFrame :=
  (λ r, CountRow r.1.1.1 r.1.1.2
          (match r.2 with Some y => Z.max r.1.2 y | None => r.1.2 end)) <$> df.

(** The boolean Series [df['num_baskets_y'] > 0], with its row labels. *)
Definition y_positive (df : list (merged_row (option Z))) : list (nat * bool) :=
  imap (λ i r, (i, match r.2 with Some y => bool_decide (0 < y) | None => false end)) df.

(** [series.index]: the row labels of a Series, whatever its values. *)
Definition index_of {V : Type} (series : list (nat * V)) : list nat := series.*1.

(** [df.drop(labels)]: the rows whose label is not listed. *)
Definition drop_labels {A : Type} (labels : list nat) (df : list A) : list A :=
  (filter (λ ir, ir.1 ∉ labels) (imap (λ i r, (i, r)) df)).*2.

(** *** What [pd.read_csv] gives back as it was written

    [read_csv] guesses the type of each column.  A column of product ids
    comes back as it was written in two cases: every id is a [word], which
    is never taken for a number, a truth value or a missing value, so the
    column stays text; or every id is a [number], a decimal integer without
    sign or leading zero that fits int64 and prints as it was written.
    Frames whose ids mix the two kinds raise in [pd.merge], and ids such as
    [01], [1.0], [NA] or an empty field are changed by the reading; both
    are outside the embedding of the merger. *)

Definition is_letter (c : ascii) : bool :=
  let n := nat_of_ascii c in
  ((65 <=? n) && (n <=? 90) || (97 <=? n) && (n <=? 122))%nat.

Definition is_digit (c : ascii) : bool :=
  let n := nat_of_ascii c in ((48 <=? n) && (n <=? 57))%nat.

Definition lower (c : ascii) : ascii :=
  let n := nat_of_ascii c in
  if ((65 <=? n) && (n <=? 90))%nat then ascii_of_nat (n + 32) else c.

Fixpoint forall_chars (p : ascii → bool) (s : string) : bool :=
  match s with
  | EmptyString => true
  | String c s' => p c && forall_chars p s'
  end.

Fixpoint map_chars (g : ascii → ascii) (s : string) : string :=
  match s with
  | EmptyString => EmptyString
  | String c s' => String (g c) (map_chars g s')
  end.

(** The letters-only tokens [read_csv] takes for a missing value, a truth
    value or an infinity, in lower case. *)
Definition reserved : list string :=
  ["na"; "nan"; "null"; "none"; "inf"; "infinity"; "true"; "false"].

(** Letters and digits after a leading letter, no reserved token. *)
Definition word (s : string) : bool :=
  match s with
  | EmptyString => false
  | String c _ =>
      is_letter c && forall_chars (λ c, is_letter c || is_digit c) s
      && negb (bool_decide (map_chars lower s ∈ reserved))
  end.

(** At most 18 digits, no leading zero but in [0] itself. *)
Definition number (s : string) : bool :=
  match s with
  | EmptyString => false
  | String c s' =>
      forall_chars is_digit s && (negb (c =? "0")%char || (s' =? "")%string)
      && (String.length s <=? 18)%nat
  end.

Definition kept_as_written (products : list string) : bool :=
  forallb word products || forallb number products.

Definition frame_products (df : DataFrame) : list string :=
  r ← df; [Product_1 r; Product_2 r].

End Pandas.
Import Pandas.

(** [l.index(x)] *)
Fixpoint list_index {A : Type} `{EqDecision A} (x : A) (l : list A) : nat :=
  match l with
  | [] => O
  | y :: l' => if decide (x = y) then O else S (list_index x l')
  end.

(** [range(a, b)] *)
Definition range (a b : nat) : list nat := seq a (b - a).

(** One pass of [for next_idx in proc_range]: the primary frame and the
    pair-count files after comparing with [comp_file].  [pd.read_csv] is
    taken to give the rows of the file as they were written, which it does
    for the frames that are [read_back]. *)
Definition compare_file (comp_file : string)
    (st : DataFrame * gmap string DataFrame) : DataFrame * gmap string DataFrame :=
  let '(proc_df, files) := st in
  (* os.path.getsize(comp_file) == 0 *)
  if bool_decide (files !!! comp_file = []) then st
  else
    let comp_df := files !!! comp_file in
    let mrg_df := merge proc_df comp_df in
    if bool_decide (mrg_df = []) then st
    else
      let upd_df := assign_sum mrg_df in
      let proc_df := assign_max (merge_left proc_df upd_df) in
      (* delete merged row from subfile so it doesn't get counted again *)
      let comp_df := merge_left comp_df upd_df in
      let comp_drop_idx := index_of (y_positive comp_df) in
      let comp_df := drop_labels comp_drop_idx comp_df in
      let comp_df := assign_max comp_df in
      if bool_decide (upd_df = []) then (proc_df, files)
      else (proc_df, <[comp_file := comp_df]> files).

(** The body of [for proc_file in subdata_list]. *)
Definition process_file (subdata_list : list string) (wd : workdir)
    (proc_file : string) : workdir :=
  if bool_decide (tuplecount wd !!! proc_file = []) then wd
  else
    let proc_df := tuplecount wd !!! proc_file in
    let proc_range :=
      range (list_index proc_file subdata_list + 1) (length subdata_list) in
    let '(proc_df, files) :=
      foldl (λ st next_idx, compare_file (subdata_list !!! next_idx) st)
        (proc_df, tuplecount wd) proc_range in
    WorkDir (subdata wd) files
      (match report wd with
       | None => Some proc_df
       | Some rows => Some (rows ++ proc_df)
       end).

(** [proc_subdata(output_filename)], the report being [output_filename]. *)
Definition proc_subdata (wd : workdir) : workdir :=
  let subdata_list := sorted String.leb (map_to_list (tuplecount wd)).*1 in
  foldl (process_file subdata_list) wd subdata_list.

(** ** The script body *)

Fixpoint count_subfiles (subdatafiles : list string) (wd : workdir)
    : result workdir :=
  match subdatafiles with
  | [] => Ok wd
  | subdatafile :: rest =>
      bind (proc_baskets (subdata wd !!! subdatafile)) (λ basket_out,
        count_subfiles rest (count_product_tuples subdatafile basket_out wd))
  end.

(** The statements under [if __name__ == '__main__'], from the call of
    [create_subfiles] on.  The value [create_subfiles] returns is not
    looked at.  When [glob.glob('subdata*.csv')] is evaluated the pair-count
    files of earlier runs are gone (see [create_subfiles_tuplecount]), so
    the pattern lists the chunk files. *)
Definition main (fuel : nat) (gzip_file : list read) (line_limit : Z)
    (wd : workdir) : option (result workdir) :=
  match create_subfiles fuel gzip_file line_limit wd with
  | None => None
  | Some (_, wd) =>
      Some (bind (count_subfiles (map_to_list (subdata wd)).*1 wd) (λ wd,
              Ok (remove_subdata (proc_subdata wd))))
  end.

(** ** Orders the script does not choose

    [set(...)] is iterated in the order of the hashes, which differs from
    one interpreter to the next, and [glob.glob] lists a directory in the
    order of the file system.  The definitions above take one enumeration
    for each.  Here both are parameters: [set_order l] is the order in
    which [set(l)] is iterated and [glob m] the order in which the files
    of [m] are listed. *)

Definition iterates_set (set_order : list string → list string) : Prop :=
  ∀ l, set_order l ≡ₚ remove_dups l.

Definition lists_files (glob : ∀ A, gmap string A → list string) : Prop :=
  ∀ A (m : gmap string A), glob A m ≡ₚ (map_to_list m).*1.

Section AnyOrder.
Context (set_order : list string → list string).
Context (glob : ∀ A, gmap string A → list string).

Definition deduped_in (basket_dict : gmap string (list string))
    : list (string * list string) :=
  (λ key, (key, sorted String.leb (set_order (basket_dict !!! key))))
    <$> sorted String.leb (map_to_list basket_dict).*1.

Definition baskets_of_rows_in (csv_f : list (list string))
    : result (list (string * list (string * string))) :=
  bind (read_baskets csv_f ∅) (λ basket_dict,
    Ok (foldl
          (λ file_of_baskets bc, dict_update bc.1 (basket_tuples bc.2) file_of_baskets)
          [] (deduped_in basket_dict))).

Definition proc_baskets_in (f : list string)
    : result (list (string * list (string * string))) :=
  baskets_of_rows_in (csv_reader f).

Fixpoint count_subfiles_in (subdatafiles : list string) (wd : workdir)
    : result workdir :=
  match subdatafiles with
  | [] => Ok wd
  | subdatafile :: rest =>
      bind (proc_baskets_in (subdata wd !!! subdatafile)) (λ basket_out,
        count_subfiles_in rest (count_product_tuples subdatafile basket_out wd))
  end.

Definition proc_subdata_in (wd : workdir) : workdir :=
  let subdata_list := sorted String.leb (glob _ (tuplecount wd)) in
  foldl (process_file subdata_list) wd subdata_list.

Definition main_in (fuel : nat) (gzip_file : list read) (line_limit : Z)
    (wd : workdir) : option (result workdir) :=
  match create_subfiles fuel gzip_file line_limit wd with
  | None => None
  | Some (_, wd) =>
      Some (bind (count_subfiles_in (glob _ (subdata wd)) wd) (λ wd,
              Ok (remove_subdata (proc_subdata_in wd))))
  end.

End AnyOrder.

(** ** Reference notions the properties are stated with *)

(** A line of the input, with its terminator. *)
Definition line (s : string) : string := s +:+ nl.

(** The products the rows of a chunk give for [basket]: every field after
    the first, of every row whose first field is [basket]. *)
Definition products_of (basket : string) (csv_f : list (list string)) : list string :=
  row ← csv_f;
  match row with
  | row0 :: row1 => if decide (row0 = basket) then row1 else []
  | [] => []
  end.

(** The basket ids of a chunk: the first field of every row that has one. *)
Definition basket_ids (csv_f : list (list string)) : list string := omap head csv_f.

Definition report_rows (wd : workdir) : list count_row := default [] (report wd).

(** Sum of the [num_baskets] column. *)
Definition total (rows : list count_row) : Z := foldr Z.add 0 (num_baskets <$> rows).

(** The direct count: assemble the baskets of the whole dataset at once,
    without chunk files, and count every pair of every basket. *)
Definition direct_total (dataset : list string) : result Z :=
  bind (proc_baskets dataset) (λ file_of_baskets,
    Ok (Z.of_nat (length (mjoin file_of_baskets.*2)))).

(** The count of the dataset taken straight from its rows: the triples
    of a basket id and two of that basket's products, the first below the
    second, each triple once. *)
Definition pair_occurrences (csv_f : list (list string)) : nat :=
  length (basket ← remove_dups (basket_ids csv_f);
          e1 ← remove_dups (products_of basket csv_f);
          e2 ← remove_dups (products_of basket csv_f);
          if String.ltb e1 e2 then [(basket, e1, e2)] else []).

(** Two outcomes of a run that leave the same rows in the report, in
    whatever order. *)
Definition same_reports (outcome1 outcome2 : result workdir) : Prop :=
  match outcome1, outcome2 with
  | Ok wd1, Ok wd2 =>
      (report wd1 = None ↔ report wd2 = None) ∧ report_rows wd1 ≡ₚ report_rows wd2
  | Raise _, Raise _ => True
  | _, _ => False
  end.

(** ** Where the embedding of the libraries is exact *)

(** A line [csv.reader] cuts at its commas and nowhere else: printable
    ASCII without a double quote, ended by one line feed, and shorter than
    the reader's field limit. *)
Definition plain_char (c : ascii) : bool :=
  let n := nat_of_ascii c in ((32 <=? n) && (n <=? 126) && negb (n =? 34))%nat.

Fixpoint plain_chars (l : string) : bool :=
  match l with
  | EmptyString => false
  | String c l' =>
      if (c =? ascii_of_nat 10)%char then (l' =? "")%string
      else plain_char c && plain_chars l'
  end.

Definition plain_line (l : string) : bool :=
  plain_chars l && (Z.of_nat (String.length l) <=? 131072).

(** Pair-count files [pd.read_csv] gives back as they were written, and
    whose counts the merger adds without rounding: the product ids are
    [kept_as_written], no count is negative, and all counts together stay
    within the integers a float holds exactly. *)
Definition read_back (frames : list DataFrame) : bool :=
  kept_as_written (frame_products (mjoin frames))
  && forallb (λ r, 0 <=? num_baskets r) (mjoin frames)
  && (total (mjoin frames) <=? 2 ^ 52).

(** An input on which the whole run is embedded exactly: plain lines, of
    which there are no more than a float counts exactly, and product ids
    (the fields after the first) that the merger reads back as written. *)
Definition plain_input (lines : list string) : bool :=
  forallb plain_line lines
  && kept_as_written (mjoin (tail <$> csv_reader lines))
  && (Z.of_nat (length lines) <=? 2 ^ 52).

(** ** Concrete inputs *)

(** One basket of three rows, read with a line budget of 1. *)
Definition straddling_lines : list string := [line "1,A"; line "1,B"; line "1,C"].

(** Baskets 1 and 2 hold A and B, basket 3 holds A and B, basket 4 holds A
    and C; with a line budget of 3 every chunk takes four lines, so no
    basket is cut. *)
Definition four_baskets : list string :=
  [line "1,A"; line "1,B"; line "2,A"; line "2,B";
   line "3,A"; line "3,B"; line "4,A"; line "4,C"].

(** The scenario of the specification: baskets 1:[A,B], 2:[A,B], 3:[A,C],
    basket 1 alone in the first chunk file, baskets 2 and 3 in the second. *)
Definition scenario_chunks : workdir :=
  WorkDir
    (<["subdata_001.csv" := [line "1,A"; line "1,B"]]>
       (<["subdata_002.csv" := [line "2,A"; line "2,B"; line "3,A"; line "3,C"]]> ∅))
    ∅ None.

(** An input the chunker cuts in that way, with a line budget of 3: the
    repeated row of basket 1 fills the first chunk. *)
Definition scenario_lines : list string :=
  [line "1,A"; line "1,B"; line "1,B"; line "1,B";
   line "2,A"; line "2,B"; line "3,A"; line "3,C"].

(** A directory with two pair-count files that share the pair (A,B). *)
Definition two_count_files : workdir :=
  WorkDir ∅
    {["subdata_001_tuplecount.csv" := [CountRow "A" "B" 2];
      "subdata_002_tuplecount.csv" := [CountRow "A" "B" 1; CountRow "A" "C" 1]]}
    None.

(** A directory with two pair-count files that share no pair. *)
Definition disjoint_count_files : workdir :=
  WorkDir ∅
    {["subdata_001_tuplecount.csv" := [CountRow "A" "B" 2];
      "subdata_002_tuplecount.csv" := [CountRow "A" "C" 1; CountRow "B" "C" 4]]}
    None.

(** An archive that breaks after two lines. *)
Definition truncated_input : list read :=
  [Line (line "1,A"); Line (line "1,B"); ReadError].

(** * Properties *)

(** ** Sorting *)

Section SortedFacts.
Context {A : Type} (leb : A → A → bool).

Lemma insort_perm x l : insort leb x l ≡ₚ x :: l.
Proof.
  induction l as [|y l IH]; simpl; [done|].
  destruct (leb x y); [done|].
  rewrite IH. apply Permutation_swap.
Qed.

Lemma sorted_perm l : sorted leb l ≡ₚ l.
Proof.
  induction l as [|x l IH]; simpl; [done|].
  rewrite insort_perm. by f_equiv.
Qed.

Lemma elem_of_sorted x l : x ∈ sorted leb l ↔ x ∈ l.
Proof. by rewrite sorted_perm. Qed.

Lemma NoDup_sorted l : NoDup (sorted leb l) ↔ NoDup l.
Proof. by rewrite sorted_perm. Qed.

Lemma sorted_nil_inv l : sorted leb l = [] → l = [].
Proof.
  intros H. apply Permutation_nil_r. by rewrite <- H, sorted_perm.
Qed.
End SortedFacts.

(** ** Counters *)

Section DictAdd.
Context {K : Type} `{EqDecision K}.
Implicit Types (d : list (K * Z)) (k : K) (v : Z).

Lemma dict_add_keys k v d :
  (dict_add k v d).*1 = if decide (k ∈ d.*1) then d.*1 else d.*1 ++ [k].
Proof.
  induction d as [|[k' n] d IH].
  - destruct (decide (k ∈ ([] : list (K * Z)).*1)) as [Hin|_]; [|done].
    by apply elem_of_nil in Hin.
  - cbn [dict_add]. rewrite !fmap_cons. cbn [fst].
    destruct (decide (k = k')) as [->|Hne].
    + rewrite fmap_cons. cbn [fst].
      destruct (decide (k' ∈ k' :: d.*1)) as [_|Hnin]; [done|].
      exfalso. apply Hnin, elem_of_cons; auto.
    + rewrite fmap_cons, IH. cbn [fst].
      destruct (decide (k ∈ d.*1)) as [Hin|Hnin];
        destruct (decide (k ∈ k' :: d.*1)) as [Hin'|Hnin']; try done.
      * exfalso. apply Hnin', elem_of_cons; auto.
      * apply elem_of_cons in Hin' as [?|?]; done.
Qed.

Lemma dict_add_NoDup k v d : NoDup d.*1 → NoDup (dict_add k v d).*1.
Proof.
  intros Hd. rewrite dict_add_keys. case_decide; [done|].
  apply NoDup_app. split_and!; [done| |apply NoDup_singleton].
  intros x Hx ->%list_elem_of_singleton. done.
Qed.

Lemma elem_of_dict_add_keys k k' v d :
  k' ∈ (dict_add k v d).*1 ↔ k' = k ∨ k' ∈ d.*1.
Proof.
  rewrite dict_add_keys. case_decide.
  - split; [auto|]. intros [->|?]; done.
  - rewrite elem_of_app, list_elem_of_singleton. tauto.
Qed.

Lemma dict_add_positive k v d :
  1 ≤ v → Forall (λ kv, 1 ≤ kv.2) d → Forall (λ kv, 1 ≤ kv.2) (dict_add k v d).
Proof.
  intros Hv. induction 1 as [|[k' n] d Hn Hd IH]; simpl.
  - repeat constructor. simpl. lia.
  - case_decide; constructor; simpl in *; auto; lia.
Qed.

(** Adding a fresh key appends it at the end. *)
Lemma dict_add_fresh k v d : k ∉ d.*1 → dict_add k v d = d ++ [(k, v)].
Proof.
  induction d as [|[k' n] d IH]; simpl; intros Hk.
  - done.
  - rewrite not_elem_of_cons in Hk. destruct Hk as [Hne Hk].
    case_decide; [done|]. by rewrite IH.
Qed.

Lemma Counter_spec (l : list K) :
  NoDup (Counter l).*1 ∧ Forall (λ kv, 1 ≤ kv.2) (Counter l) ∧
  ∀ k, k ∈ (Counter l).*1 ↔ k ∈ l.
Proof.
  unfold Counter.
  cut (∀ c, NoDup c.*1 → Forall (λ kv, 1 ≤ kv.2) c →
         let c' := foldl (λ c k, dict_add k 1 c) c l in
         NoDup c'.*1 ∧ Forall (λ kv, 1 ≤ kv.2) c' ∧
         ∀ k, k ∈ c'.*1 ↔ k ∈ c.*1 ∨ k ∈ l).
  { intros H. destruct (H [] (NoDup_nil_2) (Forall_nil_2 _)) as (?&?&Hk).
    split_and!; [done..|]. intros k. rewrite Hk, elem_of_nil. tauto. }
  induction l as [|x l IH]; simpl; intros c Hc Hpos.
  - split_and!; [done..|]. intros k. rewrite elem_of_nil. tauto.
  - destruct (IH (dict_add x 1 c)) as (?&?&Hk);
      [by apply dict_add_NoDup|by apply dict_add_positive|].
    split_and!; [done..|]. intros k.
    rewrite Hk, elem_of_dict_add_keys, elem_of_cons. tauto.
Qed.

(** Summing the items of a dictionary into an empty [defaultdict(int)]
    gives the same items in the same order. *)
Lemma summed_items d :
  NoDup d.*1 → foldl (λ summed kv, dict_add kv.1 kv.2 summed) [] d = d.
Proof.
  intros Hd.
  cut (∀ acc, NoDup (acc ++ d).*1 →
         foldl (λ summed kv, dict_add kv.1 kv.2 summed) acc d = acc ++ d).
  { intros H. by apply (H []). }
  clear Hd. induction d as [|[k v] d IH]; simpl; intros acc Hnd.
  - by rewrite app_nil_r.
  - rewrite dict_add_fresh.
    + replace (0 + v) with v by lia.
      rewrite IH; rewrite <- (assoc_L (++)); done.
    + rewrite fmap_app, NoDup_app in Hnd. destruct Hnd as (_ & Hdis & _).
      intros Hin. apply (Hdis k Hin). simpl. apply elem_of_cons; auto.
Qed.
End DictAdd.

(** ** The pair counter *)

Lemma tuple_count_rows_Counter fob :
  tuple_count_rows fob =
  (λ row, CountRow row.1.1 row.1.2 row.2) <$> Counter (mjoin fob.*2).
Proof.
  unfold tuple_count_rows. rewrite summed_items; [done|].
  apply Counter_spec.
Qed.

Lemma tuple_count_rows_keys fob :
  row_key <$> tuple_count_rows fob = (Counter (mjoin fob.*2)).*1.
Proof.
  rewrite tuple_count_rows_Counter, <- list_fmap_compose.
  apply list_fmap_ext. by intros _ [[p1 p2] n] _.
Qed.

Lemma tuple_count_rows_NoDup fob : NoDup (row_key <$> tuple_count_rows fob).
Proof. rewrite tuple_count_rows_keys. apply Counter_spec. Qed.

Lemma tuple_count_rows_positive fob :
  Forall (λ row, 1 ≤ num_baskets row) (tuple_count_rows fob).
Proof.
  rewrite tuple_count_rows_Counter, Forall_fmap.
  destruct (Counter_spec (mjoin fob.*2)) as (_ & Hpos & _).
  eapply Forall_impl; [exact Hpos|]. by intros [[p1 p2] n].
Qed.

Lemma tuple_count_rows_occur fob row :
  row ∈ tuple_count_rows fob →
  ∃ basket tuples, (basket, tuples) ∈ fob ∧ row_key row ∈ tuples.
Proof.
  intros Hrow.
  assert (row_key row ∈ (Counter (mjoin fob.*2)).*1) as Hk.
  { rewrite <- tuple_count_rows_keys. by apply list_elem_of_fmap_2. }
  destruct (Counter_spec (mjoin fob.*2)) as (_ & _ & Hkeys).
  apply Hkeys in Hk.
  apply list_elem_of_join in Hk as (tuples & Hin & Htuples).
  apply list_elem_of_fmap in Htuples as ([basket tuples'] & -> & Hfob).
  by exists basket, tuples'.
Qed.

(** ** Basket assembly *)

Lemma products_of_cons basket row csv_f :
  products_of basket (row :: csv_f) =
  match row with
  | row0 :: row1 => if decide (row0 = basket) then row1 else []
  | [] => []
  end ++ products_of basket csv_f.
Proof. done. Qed.

(** What [read_baskets] leaves in the dictionary, and when it raises. *)
Lemma read_baskets_spec csv_f basket_dict :
  match read_baskets csv_f basket_dict with
  | Raise e => e = IndexError ∧ [] ∈ csv_f
  | Ok d =>
      ([] ∉ csv_f) ∧
      ∀ basket,
        d !! basket =
        match basket_dict !! basket with
        | Some products => Some (products ++ products_of basket csv_f)
        | None =>
            if decide (basket ∈ basket_ids csv_f)
            then Some (products_of basket csv_f) else None
        end
  end.
Proof.
  revert basket_dict.
  induction csv_f as [|row csv_f IH]; intros basket_dict.
  { split; [apply not_elem_of_nil|]. intros basket.
    destruct (basket_dict !! basket); simpl; [by rewrite app_nil_r|done]. }
  destruct row as [|row0 row1].
  { split; [done|]. apply elem_of_cons; auto. }
  cbn [read_baskets add_row].
  set (d1 := match basket_dict !! row0 with
             | None => <[row0:=row1]> basket_dict
             | Some products => <[row0:=products ++ row1]> basket_dict
             end).
  assert (∀ basket, d1 !! basket =
            if decide (row0 = basket)
            then Some (default [] (basket_dict !! row0) ++ row1)
            else basket_dict !! basket) as Hd1.
  { intros basket. unfold d1.
    destruct (basket_dict !! row0) as [products|] eqn:E;
      rewrite lookup_insert; by case_decide. }
  replace (bind _ _) with (read_baskets csv_f d1)
    by (unfold d1; by destruct (basket_dict !! row0)).
  specialize (IH d1). destruct (read_baskets csv_f d1) as [d|e].
  - destruct IH as [Hne IH]. split.
    { rewrite not_elem_of_cons. done. }
    intros basket. rewrite IH, Hd1, products_of_cons.
    destruct (decide (row0 = basket)) as [->|Hne0].
    + destruct (basket_dict !! basket) as [products|]; simpl.
      * by rewrite (assoc_L (++)).
      * rewrite decide_True; [done|]. apply elem_of_cons; auto.
    + destruct (basket_dict !! basket) as [products|]; simpl; [done|].
      destruct (decide (basket ∈ basket_ids csv_f)) as [Hin|Hnin].
      * rewrite decide_True; [done|]. apply elem_of_cons; auto.
      * rewrite decide_False; [done|]. simpl. rewrite elem_of_cons.
        intros [?|?]; [by subst|done].
  - destruct IH as [-> Hin]. split; [done|]. apply elem_of_cons; auto.
Qed.

Section DictUpdate.
Context {K V : Type} `{EqDecision K}.

Lemma dict_update_fresh (k : K) (v : V) d :
  k ∉ d.*1 → dict_update k v d = d ++ [(k, v)].
Proof.
  induction d as [|[k' v'] d IH]; simpl; intros Hk; [done|].
  rewrite not_elem_of_cons in Hk. destruct Hk as [Hne Hk].
  case_decide; [done|]. by rewrite IH.
Qed.

(** Entered one by one under distinct keys, the items keep their order. *)
Lemma foldl_dict_update {A} (key : A → K) (val : A → V) (l : list A) :
  NoDup (key <$> l) →
  foldl (λ d a, dict_update (key a) (val a) d) [] l = (λ a, (key a, val a)) <$> l.
Proof.
  intros Hl.
  cut (∀ acc : list A, NoDup (key <$> acc ++ l) →
         foldl (λ d a, dict_update (key a) (val a) d)
           ((λ a, (key a, val a)) <$> acc) l
         = (λ a, (key a, val a)) <$> acc ++ l).
  { intros H. by apply (H []). }
  clear Hl. induction l as [|a l IH]; simpl; intros acc Hnd.
  - by rewrite app_nil_r.
  - rewrite dict_update_fresh.
    + replace (((λ a, (key a, val a)) <$> acc) ++ [(key a, val a)])
        with ((λ a, (key a, val a)) <$> (acc ++ [a]))
        by (by rewrite fmap_app).
      rewrite IH; by rewrite <- (assoc_L (++)).
    + rewrite fmap_app, NoDup_app in Hnd. destruct Hnd as (_ & Hdis & _).
      rewrite <- list_fmap_compose. intros Hin.
      apply (Hdis (key a)); [exact Hin|]. simpl. apply elem_of_cons; auto.
Qed.
End DictUpdate.

Lemma elem_of_basket_tuples contents e1 e2 :
  (e1, e2) ∈ basket_tuples contents ↔
  e1 ∈ contents ∧ e2 ∈ contents ∧ String.ltb e1 e2 = true.
Proof.
  unfold basket_tuples. rewrite elem_of_sorted, list_elem_of_bind. split.
  - intros (x1 & Hin & Hx1). apply list_elem_of_bind in Hin as (x2 & Hin & Hx2).
    destruct (String.ltb x1 x2) eqn:Hlt; [|by apply elem_of_nil in Hin].
    apply list_elem_of_singleton in Hin. by simplify_eq.
  - intros (H1 & H2 & Hlt). exists e1. split; [|done].
    apply list_elem_of_bind. exists e2. split; [|done].
    rewrite Hlt. by apply list_elem_of_singleton.
Qed.

Lemma NoDup_basket_tuples contents :
  NoDup contents → NoDup (basket_tuples contents).
Proof.
  intros Hnd. unfold basket_tuples. rewrite NoDup_sorted.
  apply NoDup_bind; [| |done].
  - intros x1 x2 y _ _ H1 H2.
    apply list_elem_of_bind in H1 as (z1 & H1 & _).
    apply list_elem_of_bind in H2 as (z2 & H2 & _).
    destruct (String.ltb x1 z1); [|by apply elem_of_nil in H1].
    destruct (String.ltb x2 z2); [|by apply elem_of_nil in H2].
    apply list_elem_of_singleton in H1, H2. congruence.
  - intros x1 _. apply NoDup_bind; [| |done].
    + intros z1 z2 y _ _ H1 H2.
      destruct (String.ltb x1 z1); [|by apply elem_of_nil in H1].
      destruct (String.ltb x1 z2); [|by apply elem_of_nil in H2].
      apply list_elem_of_singleton in H1, H2. congruence.
    + intros z _. destruct (String.ltb x1 z); [apply NoDup_singleton|apply NoDup_nil_2].
Qed.

Lemma ltb_irrefl s : String.ltb s s = false.
Proof.
  unfold String.ltb.
  pose proof (String.compare_antisym s s) as H.
  by destruct (String.compare s s).
Qed.

(** The rows are refused exactly when one of them has no field. *)
Lemma baskets_of_rows_raise csv_f e :
  baskets_of_rows csv_f = Raise e ↔ e = IndexError ∧ [] ∈ csv_f.
Proof.
  unfold baskets_of_rows.
  pose proof (read_baskets_spec csv_f ∅) as H.
  destruct (read_baskets csv_f ∅) as [d|e']; simpl.
  - destruct H as [Hne _]. split; [done|]. by intros [_ ?].
  - destruct H as [-> Hin]. split; [by intros [= <-]|by intros [-> _]].
Qed.

Lemma proc_baskets_raise f e :
  proc_baskets f = Raise e ↔ e = IndexError ∧ [] ∈ csv_reader f.
Proof. apply baskets_of_rows_raise. Qed.

Lemma deduped_keys d :
  (deduped d).*1 = sorted String.leb (map_to_list d).*1.
Proof.
  unfold deduped. rewrite <- list_fmap_compose.
  etransitivity; [|apply list_fmap_id].
  by apply list_fmap_ext.
Qed.

(** The dictionary returned: one entry per basket id of the rows, holding
    the pairs of that basket's sorted distinct products. *)
Lemma baskets_of_rows_ok csv_f fob :
  baskets_of_rows csv_f = Ok fob →
  NoDup fob.*1 ∧
  (∀ basket, basket ∈ fob.*1 ↔ basket ∈ basket_ids csv_f) ∧
  ∀ basket tuples, (basket, tuples) ∈ fob →
    tuples = basket_tuples
               (sorted String.leb (set (products_of basket csv_f))).
Proof.
  unfold baskets_of_rows.
  pose proof (read_baskets_spec csv_f ∅) as H.
  destruct (read_baskets csv_f ∅) as [d|e']; simpl; [|done].
  destruct H as [_ Hd]. intros [= <-].
  assert (∀ basket, d !! basket =
            if decide (basket ∈ basket_ids csv_f)
            then Some (products_of basket csv_f) else None) as Hd'.
  { intros basket. by rewrite Hd, lookup_empty. }
  clear Hd.
  assert (NoDup (deduped d).*1) as Hnd.
  { rewrite deduped_keys, NoDup_sorted. apply NoDup_fst_map_to_list. }
  rewrite (foldl_dict_update fst (λ bc, basket_tuples bc.2)); [|done].
  assert (((λ a : string * list string, (a.1, basket_tuples a.2)) <$> deduped d).*1
          = (deduped d).*1) as Hkeys.
  { rewrite <- list_fmap_compose. by apply list_fmap_ext. }
  assert (∀ basket, basket ∈ (deduped d).*1 ↔ basket ∈ basket_ids csv_f)
    as Hin.
  { intros basket. rewrite deduped_keys, elem_of_sorted.
    rewrite list_elem_of_fmap. split.
    - intros ([k v] & -> & Hkv). apply elem_of_map_to_list in Hkv.
      rewrite Hd' in Hkv. simpl in Hkv. by case_decide.
    - intros Hb. exists (basket, products_of basket csv_f).
      split; [done|]. apply elem_of_map_to_list. rewrite Hd'.
      by rewrite decide_True. }
  rewrite Hkeys. split_and!; [done..|].
  intros basket tuples Hbt.
  apply list_elem_of_fmap in Hbt as ([key contents] & [= -> ->] & Hdd).
  simpl. unfold deduped in Hdd.
  apply list_elem_of_fmap in Hdd as (key' & [= -> ->] & Hkey).
  do 3 f_equal. rewrite lookup_total_alt, Hd'.
  case_decide as Hb; [done|]. exfalso. apply Hb, Hin.
  by rewrite deduped_keys.
Qed.

Lemma proc_baskets_ok f fob :
  proc_baskets f = Ok fob →
  NoDup fob.*1 ∧
  (∀ basket, basket ∈ fob.*1 ↔ basket ∈ basket_ids (csv_reader f)) ∧
  ∀ basket tuples, (basket, tuples) ∈ fob →
    tuples = basket_tuples
               (sorted String.leb (set (products_of basket (csv_reader f)))).
Proof. apply baskets_of_rows_ok. Qed.

(** ** The DataFrame operations of the merger *)

Lemma merge_nil left right :
  merge left right = [] ↔ ∀ k, k ∈ keys left → k ∉ keys right.
Proof.
  unfold merge. split.
  - intros Hnil k Hl Hr.
    apply list_elem_of_fmap in Hl as (l & -> & Hl).
    apply list_elem_of_fmap in Hr as (r & Heq & Hr).
    assert ((row_key l, num_baskets l, num_baskets r) ∈ ([] : list (merged_row Z)))
      as Hin; [|by apply elem_of_nil in Hin].
    rewrite <- Hnil. apply list_elem_of_bind. exists l. split; [|done].
    apply list_elem_of_bind. exists r. split; [|done].
    rewrite decide_True by done. by apply list_elem_of_singleton.
  - intros Hdis. apply elem_of_nil_inv. intros x Hx.
    apply list_elem_of_bind in Hx as (l & Hx & Hl).
    apply list_elem_of_bind in Hx as (r & Hx & Hr).
    case_decide as Heq; [|by apply elem_of_nil in Hx].
    apply (Hdis (row_key l)); [by apply list_elem_of_fmap_2|].
    rewrite Heq. by apply list_elem_of_fmap_2.
Qed.

(** A key occurs in at most one row of a frame without repeated keys. *)
Lemma filter_key_NoDup k (df : DataFrame) :
  NoDup (keys df) → (length (filter (λ r, k = row_key r) df) ≤ 1)%nat.
Proof.
  induction df as [|r df IH]; intros Hnd; [simpl; lia|].
  rewrite fmap_cons in Hnd. apply NoDup_cons in Hnd as [Hr Hnd].
  rewrite filter_cons. case_decide as Heq; simpl; [|by apply IH].
  assert (filter (λ r, k = row_key r) df = []) as ->; [|simpl; lia].
  apply elem_of_nil_inv. intros r' Hr'.
  apply list_elem_of_filter in Hr' as [-> Hin].
  apply Hr. rewrite <- Heq. by apply list_elem_of_fmap_2.
Qed.

(** Each row of the inner merge carries the key of a left row, in the
    order of the left frame. *)
Lemma merge_keys_NoDup left right :
  NoDup (keys left) → NoDup (keys right) →
  NoDup (keys (assign_sum (merge left right))).
Proof.
  intros Hl Hr. unfold assign_sum, merge.
  rewrite <- list_fmap_compose.
  induction left as [|l left IH]; [apply NoDup_nil_2|].
  rewrite fmap_cons in Hl. apply NoDup_cons in Hl as [Hl Hnd].
  rewrite bind_cons, fmap_app. apply NoDup_app. split_and!.
  - pose proof (filter_key_NoDup (row_key l) right Hr) as Hlen.
    clear -Hlen. induction right as [|r right IH]; [apply NoDup_nil_2|].
    rewrite filter_cons in Hlen. rewrite bind_cons, fmap_app.
    case_decide as Heq; simpl in *.
    + assert (filter (λ r, row_key l = row_key r) right = []) as Hnil.
      { apply nil_length_inv. lia. }
      assert (right ≫= (λ r0, if decide (row_key l = row_key r0)
                then [(row_key l, num_baskets l, num_baskets r0)] else []) = [])
        as ->; [|apply NoDup_singleton].
      apply elem_of_nil_inv. intros x Hx.
      apply list_elem_of_bind in Hx as (r' & Hx & Hr').
      case_decide as Heq'; [|by apply elem_of_nil in Hx].
      assert (r' ∈ filter (λ r, row_key l = row_key r) right) as Hin
        by (by apply list_elem_of_filter).
      rewrite Hnil in Hin. by apply elem_of_nil in Hin.
    + by apply IH.
  - intros k Hk Hk'.
    apply list_elem_of_fmap in Hk as (x & -> & Hx).
    apply list_elem_of_bind in Hx as (r & Hx & _).
    case_decide; [|by apply elem_of_nil in Hx].
    apply list_elem_of_singleton in Hx as ->. simpl in Hk'.
    apply list_elem_of_fmap in Hk' as (x' & Heq & Hx').
    apply list_elem_of_bind in Hx' as (l' & Hx' & Hl').
    apply list_elem_of_bind in Hx' as (r' & Hx' & _).
    case_decide; [|by apply elem_of_nil in Hx'].
    apply list_elem_of_singleton in Hx' as ->.
    change (row_key l = row_key l') in Heq.
    apply Hl. rewrite Heq. by apply list_elem_of_fmap_2.
  - by apply IH.
Qed.

(** A left merge with a frame without repeated keys keeps the rows of the
    left frame, one for one. *)
Lemma merge_left_keys left right :
  NoDup (keys right) → keys (assign_max (merge_left left right)) = keys left.
Proof.
  intros Hr. unfold assign_max, merge_left. rewrite <- list_fmap_compose.
  induction left as [|l left IH]; [done|].
  rewrite bind_cons, fmap_app, IH. simpl. f_equal.
  pose proof (filter_key_NoDup (row_key l) right Hr) as Hlen.
  destruct (filter (λ r, row_key l = row_key r) right) as [|r [|r' rs]];
    simpl in *; [by destruct l|by destruct l|lia].
Qed.

(** Taking the labels of the whole Series drops every row. *)
Lemma drop_index_of_all df : drop_labels (index_of (y_positive df)) df = [].
Proof.
  unfold drop_labels, index_of, y_positive.
  assert (filter (λ ir : nat * merged_row (option Z),
                    ir.1 ∉ (imap (λ i r, (i, match r.2 with
                                              | Some y => bool_decide (0 < y)
                                              | None => false
                                              end)) df).*1)
            (imap (λ i r, (i, r)) df) = []) as ->; [|done].
  apply elem_of_nil_inv. intros [i r] Hir.
  apply list_elem_of_filter in Hir as [Hnot Hin]. apply Hnot. simpl.
  apply elem_of_lookup_imap in Hin as (j & r' & [= -> ->] & Hj).
  apply list_elem_of_fmap.
  exists (j, match r'.2 with Some y => bool_decide (0 < y) | None => false end).
  split; [done|].
  apply (elem_of_lookup_imap_2
           (λ i r, (i, match r.2 with
                       | Some y => bool_decide (0 < y)
                       | None => false
                       end)) df r' j Hj).
Qed.

(** ** The comparison pass *)

(** One comparison keeps the keys of the primary frame, and either leaves
    the files alone, the two frames then sharing no key, or empties the
    secondary file. *)
Lemma compare_file_spec comp_file proc_df files :
  NoDup (keys proc_df) → NoDup (keys (files !!! comp_file)) →
  let st := compare_file comp_file (proc_df, files) in
  keys st.1 = keys proc_df ∧
  ((st.2 = files ∧ ∀ k, k ∈ keys proc_df → k ∉ keys (files !!! comp_file))
   ∨ (st.2 = <[comp_file := []]> files ∧
      ∃ k, k ∈ keys proc_df ∧ k ∈ keys (files !!! comp_file))).
Proof.
  intros Hproc Hcomp. unfold compare_file.
  case_bool_decide as Hsize.
  { simpl. split; [done|]. left. split; [done|].
    intros k _. rewrite Hsize. apply not_elem_of_nil. }
  case_bool_decide as Hmrg.
  { simpl. split; [done|]. left. split; [done|]. by apply merge_nil. }
  assert (NoDup (keys (assign_sum (merge proc_df (files !!! comp_file))))) as Hupd
    by (by apply merge_keys_NoDup).
  case_bool_decide as Hempty.
  { exfalso. by apply fmap_nil_inv in Hempty. }
  simpl. split; [by apply merge_left_keys|]. right.
  rewrite drop_index_of_all. split; [done|].
  destruct (merge proc_df (files !!! comp_file)) as [|x xs] eqn:E; [done|].
  assert (x ∈ merge proc_df (files !!! comp_file)) as Hx
    by (rewrite E; apply elem_of_cons; auto).
  apply list_elem_of_bind in Hx as (l & Hx & Hl).
  apply list_elem_of_bind in Hx as (r & Hx & Hr).
  case_decide as Heq; [|by apply elem_of_nil in Hx].
  exists (row_key l). split; [by apply list_elem_of_fmap_2|].
  rewrite Heq. by apply list_elem_of_fmap_2.
Qed.

(** The comparisons of one primary with the files [names], in order. *)
Lemma compare_loop_spec names proc_df files :
  NoDup (keys proc_df) → (∀ name, NoDup (keys (files !!! name))) →
  let st := foldl (λ st name, compare_file name st) (proc_df, files) names in
  keys st.1 = keys proc_df ∧
  (∀ name, st.2 !!! name = files !!! name ∨ st.2 !!! name = []) ∧
  (∀ name, name ∈ names →
     st.2 !!! name = [] ∨ ∀ k, k ∈ keys proc_df → k ∉ keys (st.2 !!! name)).
Proof.
  revert proc_df files.
  induction names as [|comp_file names IH]; intros proc_df files Hproc Hfiles.
  { simpl. split_and!; [done|by left|]. intros name Hin.
    by apply elem_of_nil in Hin. }
  cbn [foldl].
  destruct (compare_file_spec comp_file proc_df files Hproc (Hfiles comp_file))
    as [Hkeys Hstep].
  destruct (compare_file comp_file (proc_df, files)) as [proc_df1 files1].
  simpl in Hkeys, Hstep.
  assert (∀ name, files1 !!! name = files !!! name ∨ files1 !!! name = [])
    as Hsame.
  { intros name. destruct Hstep as [[-> _]|[-> _]]; [by left|].
    destruct (decide (comp_file = name)) as [->|Hne].
    - right. by rewrite lookup_total_insert_eq.
    - left. by rewrite lookup_total_insert_ne. }
  assert (∀ name, NoDup (keys (files1 !!! name))) as Hfiles1.
  { intros name. destruct (Hsame name) as [->| ->]; [done|apply NoDup_nil_2]. }
  assert (NoDup (keys proc_df1)) as Hproc1 by (by rewrite Hkeys).
  destruct (IH proc_df1 files1 Hproc1 Hfiles1) as (Hk & Hs & Hd).
  destruct (foldl _ (proc_df1, files1) names) as [proc_df' files'].
  simpl in *. split_and!.
  - by rewrite Hk.
  - intros name. destruct (Hs name) as [->| ->]; [apply Hsame|by right].
  - intros name [->|Hin]%elem_of_cons.
    + destruct (Hs comp_file) as [Heq|Heq]; [|by left]. rewrite Heq.
      destruct Hstep as [[-> Hdis]|[-> _]]; [by right|].
      left. by rewrite lookup_total_insert_eq.
    + destruct (Hd name Hin) as [?|Hdis]; [by left|]. right.
      intros k Hkin. apply Hdis. by rewrite Hkeys.
Qed.

(** [subdata_list[next_idx] for next_idx in range(a, len(subdata_list))]
    enumerates the list from position [a] on. *)
Lemma lookup_range (l : list string) a :
  (λ next_idx, l !!! next_idx) <$> range a (length l) = drop a l.
Proof.
  unfold range. revert a. induction l as [|x l IH]; intros a.
  { simpl. by destruct a. }
  destruct a as [|a].
  - rewrite drop_0. cbn [length Nat.sub seq]. rewrite fmap_cons. f_equal.
    rewrite <- fmap_S_seq, <- list_fmap_compose.
    specialize (IH 0%nat). rewrite Nat.sub_0_r, drop_0 in IH. exact IH.
  - cbn [length Nat.sub]. rewrite <- fmap_S_seq, <- list_fmap_compose.
    exact (IH a).
Qed.

Lemma list_index_app (l1 l2 : list string) x :
  x ∉ l1 → list_index x (l1 ++ x :: l2) = length l1.
Proof.
  induction l1 as [|y l1 IH]; simpl; intros Hx.
  - by rewrite decide_True.
  - rewrite not_elem_of_cons in Hx. destruct Hx as [Hne Hx].
    rewrite decide_False by done. by rewrite IH.
Qed.

(** ** The merger *)

Lemma foldl_compare_lookup (subdata_list : list string) proc_range st :
  foldl (λ st next_idx, compare_file (subdata_list !!! next_idx) st) st proc_range
  = foldl (λ st name, compare_file name st) st
      ((λ next_idx, subdata_list !!! next_idx) <$> proc_range).
Proof. symmetry. apply foldl_fmap. Qed.

(** The body of the outer loop, with the index arithmetic resolved: the
    secondaries of a primary are the files listed after it. *)
Lemma process_file_eq done proc_file rest wd :
  proc_file ∉ done →
  process_file (done ++ proc_file :: rest) wd proc_file =
  if bool_decide (tuplecount wd !!! proc_file = []) then wd
  else
    let st := foldl (λ st name, compare_file name st)
                (tuplecount wd !!! proc_file, tuplecount wd) rest in
    WorkDir (subdata wd) st.2
      (match report wd with
       | None => Some st.1
       | Some rows => Some (rows ++ st.1)
       end).
Proof.
  intros Hdone. unfold process_file. case_bool_decide; [done|].
  rewrite list_index_app by done.
  rewrite foldl_compare_lookup, lookup_range.
  replace (length done + 1)%nat with (length (done ++ [proc_file]))
    by (rewrite length_app; simpl; lia).
  rewrite (cons_middle proc_file done rest), (assoc_L (++)), drop_app_length.
  by destruct (foldl _ _ rest).
Qed.

Lemma process_loop_spec rows0 todo : ∀ done wd appended,
  NoDup (done ++ todo) →
  (∀ name, NoDup (keys (tuplecount wd !!! name))) →
  report_rows wd = rows0 ++ appended →
  NoDup (keys appended) →
  (∀ name k, name ∈ todo → k ∈ keys (tuplecount wd !!! name) → k ∉ keys appended) →
  let wd' := foldl (process_file (done ++ todo)) wd todo in
  subdata wd' = subdata wd ∧
  ∃ appended', report_rows wd' = rows0 ++ appended' ∧ NoDup (keys appended').
Proof.
  induction todo as [|proc_file rest IH];
    intros done wd appended Hnd Hfiles Hrep Happ Hfresh.
  { simpl. split; [done|]. by exists appended. }
  cbn [foldl].
  assert (proc_file ∉ done) as Hdone.
  { apply NoDup_app in Hnd as (_ & Hdis & _). intros Hin.
    apply (Hdis _ Hin), elem_of_cons; auto. }
  rewrite process_file_eq by done.
  rewrite (cons_middle proc_file done rest), (assoc_L (++)) in Hnd |- *.
  case_bool_decide as Hsize.
  { apply (IH (done ++ [proc_file]) wd appended); try done.
    intros name k Hin. apply Hfresh, elem_of_cons; auto. }
  destruct (compare_loop_spec rest (tuplecount wd !!! proc_file) (tuplecount wd)
              (Hfiles proc_file) Hfiles) as (Hkeys & Hsame & Hdis).
  destruct (foldl _ (tuplecount wd !!! proc_file, tuplecount wd) rest)
    as [proc_df files].
  simpl in Hkeys, Hsame, Hdis |- *.
  match goal with
  | |- context [foldl _ ?w rest] =>
      destruct (IH (done ++ [proc_file]) w (appended ++ proc_df)) as [Hsub Hex]
  end; simpl.
  - done.
  - intros name. destruct (Hsame name) as [->| ->]; [done|apply NoDup_nil_2].
  - unfold report_rows in *. destruct (report wd) as [rows|]; simpl in *.
    + by rewrite Hrep, (assoc_L (++)).
    + symmetry in Hrep. apply app_eq_nil in Hrep as [-> ->]. done.
  - rewrite fmap_app. apply NoDup_app. split_and!; [done| |].
    + intros k Hk. rewrite Hkeys. intros Hk'.
      apply (Hfresh proc_file k); [apply elem_of_cons; auto|done..].
    + rewrite Hkeys. apply Hfiles.
  - intros name k Hin Hk. rewrite fmap_app, elem_of_app. intros [Hk'|Hk'].
    + destruct (Hsame name) as [Heq|Heq]; rewrite Heq in Hk.
      * apply (Hfresh name k); [apply elem_of_cons; auto|done..].
      * by apply elem_of_nil in Hk.
    + destruct (Hdis name Hin) as [Heq|Hno].
      * rewrite Heq in Hk. by apply elem_of_nil in Hk.
      * apply (Hno k); [by rewrite <- Hkeys|done].
  - split; [done|]. exact Hex.
Qed.

(** The rows [proc_subdata] adds to the report carry distinct keys. *)
Lemma proc_subdata_spec wd :
  (∀ name, NoDup (keys (tuplecount wd !!! name))) →
  subdata (proc_subdata wd) = subdata wd ∧
  ∃ appended,
    report_rows (proc_subdata wd) = report_rows wd ++ appended ∧
    NoDup (keys appended).
Proof.
  intros Hfiles. unfold proc_subdata.
  apply (process_loop_spec (report_rows wd)
           (sorted String.leb (map_to_list (tuplecount wd)).*1) [] wd []).
  - simpl. rewrite NoDup_sorted. apply NoDup_fst_map_to_list.
  - done.
  - by rewrite app_nil_r.
  - apply NoDup_nil_2.
  - intros name k _ _. apply not_elem_of_nil.
Qed.

(** ** Termination of the chunker *)

(** A subfile never gives input back, and when the loop body runs at all
    it either uses up some input or reaches the end of the input. *)
Lemma fill_subfile_progress line_limit gzip_f :
  ∀ line_counter current_line out_f out_f' current_line' gzip_f',
  fill_subfile line_limit gzip_f line_counter current_line out_f
    = (out_f', Ok (current_line', gzip_f')) →
  (length gzip_f' ≤ length gzip_f)%nat ∧
  (line_counter ≤ line_limit →
   current_line' = EmptyString ∨ (length gzip_f' < length gzip_f)%nat).
Proof.
  induction gzip_f as [|r gzip_f IH];
    intros line_counter current_line out_f out_f' current_line' gzip_f' Hfill.
  - simpl in Hfill. destruct (line_counter <=? line_limit) eqn:Hle.
    + injection Hfill as _ <- <-. split; [done|]. by left.
    + injection Hfill as _ <- <-. split; [done|]. lia.
  - cbn [fill_subfile] in Hfill.
    destruct (line_counter <=? line_limit) eqn:Hle.
    2:{ injection Hfill as _ <- <-. split; [done|]. lia. }
    destruct r as [s|]; [|done].
    destruct (s =? "")%string.
    { injection Hfill as _ <- <-. split; [simpl; lia|]. by left. }
    destruct ((line_counter =? line_limit) && (s =? current_line)%string);
      apply IH in Hfill as [Hlen _]; simpl; split; try lia; intros _; right; lia.
Qed.

Lemma chunk_loop_terminates line_limit fuel :
  0 ≤ line_limit →
  ∀ gzip_f current_line subfile_counter files,
  (length gzip_f < fuel)%nat →
  is_Some (chunk_loop fuel line_limit gzip_f current_line subfile_counter files).
Proof.
  intros Hlimit. induction fuel as [|fuel IH];
    intros gzip_f current_line subfile_counter files Hfuel; [lia|].
  cbn [chunk_loop]. destruct (current_line =? "")%string; [done|].
  destruct (fill_subfile line_limit gzip_f 0 current_line
              (files !!! subfile_name subfile_counter))
    as [out_f [[current_line' gzip_f']|e]] eqn:Hfill; [|done].
  apply fill_subfile_progress in Hfill as [Hlen Hprog].
  destruct (Hprog Hlimit) as [->|Hlt].
  - destruct fuel; done.
  - apply IH. lia.
Qed.

(** More fuel does not change a result. *)
Lemma chunk_loop_mono line_limit fuel :
  ∀ fuel' gzip_f current_line subfile_counter files r,
  chunk_loop fuel line_limit gzip_f current_line subfile_counter files = Some r →
  (fuel ≤ fuel')%nat →
  chunk_loop fuel' line_limit gzip_f current_line subfile_counter files = Some r.
Proof.
  induction fuel as [|fuel IH];
    intros fuel' gzip_f current_line subfile_counter files r Hr Hle.
  - simpl in Hr. destruct fuel'; simpl;
      destruct (current_line =? "")%string; done.
  - destruct fuel' as [|fuel']; [lia|]. cbn [chunk_loop] in Hr |- *.
    destruct (current_line =? "")%string; [done|].
    destruct (fill_subfile line_limit gzip_f 0 current_line
                (files !!! subfile_name subfile_counter))
      as [out_f [[current_line' gzip_f']|e]]; [|done].
    apply IH; [done|lia].
Qed.

(** With a negative [line_limit] the inner loop never runs, the outer loop
    keeps opening subfiles for the same line, and the chunker does not
    return. *)
Lemma chunk_loop_diverges line_limit fuel :
  line_limit < 0 →
  ∀ gzip_f current_line subfile_counter files,
  current_line ≠ EmptyString →
  chunk_loop fuel line_limit gzip_f current_line subfile_counter files = None.
Proof.
  intros Hneg. induction fuel as [|fuel IH];
    intros gzip_f current_line subfile_counter files Hline.
  - simpl. by apply String.eqb_neq in Hline as ->.
  - cbn [chunk_loop]. rewrite (proj2 (String.eqb_neq _ _) Hline).
    assert (∀ out_f, fill_subfile line_limit gzip_f 0 current_line out_f
                     = (out_f, Ok (current_line, gzip_f))) as ->.
    { intros out_f. destruct gzip_f; simpl;
        by rewrite (proj2 (Z.leb_gt _ _)) by lia. }
    by apply IH.
Qed.

(** ** The chunker and the working directory *)

Lemma chunk_loop_eof fuel line_limit gzip_f subfile_counter files :
  chunk_loop fuel line_limit gzip_f EmptyString subfile_counter files
  = Some (files, Ok ()).
Proof. by destruct fuel. Qed.

Lemma create_subfiles_stale fuel gzip_file line_limit wd1 wd2 :
  report wd1 = report wd2 →
  create_subfiles fuel gzip_file line_limit wd1
  = create_subfiles fuel gzip_file line_limit wd2.
Proof. intros H. unfold create_subfiles, remove_subdata. by rewrite H. Qed.

Lemma create_subfiles_tuplecount fuel gzip_file line_limit wd flag wd' :
  create_subfiles fuel gzip_file line_limit wd = Some (flag, wd') →
  tuplecount wd' = ∅ ∧ report wd' = report wd.
Proof.
  unfold create_subfiles. intros H.
  destruct gzip_file as [|[s|] rest]; simpl in H; [| |by simplify_eq].
  - rewrite chunk_loop_eof in H. by simplify_eq.
  - destruct (chunk_loop fuel line_limit rest s 1 ∅) as [[files [[]|e]]|];
      by simplify_eq.
Qed.

Lemma create_subfiles_terminates fuel gzip_file line_limit wd :
  0 ≤ line_limit → (length gzip_file ≤ fuel)%nat →
  is_Some (create_subfiles fuel gzip_file line_limit wd).
Proof.
  intros Hlimit Hfuel. unfold create_subfiles.
  destruct gzip_file as [|[s|] rest]; simpl; [|  |done].
  - by rewrite chunk_loop_eof.
  - destruct (chunk_loop_terminates line_limit fuel Hlimit rest s 1%nat ∅)
      as [[files r] ->]; [simpl in Hfuel; lia|].
    destruct r as [[]|e]; done.
Qed.

Lemma create_subfiles_mono fuel fuel' gzip_file line_limit wd r :
  create_subfiles fuel gzip_file line_limit wd = Some r → (fuel ≤ fuel')%nat →
  create_subfiles fuel' gzip_file line_limit wd = Some r.
Proof.
  unfold create_subfiles. intros H Hle.
  destruct gzip_file as [|[s|] rest]; simpl in *; [| |done].
  - by rewrite chunk_loop_eof in *.
  - destruct (chunk_loop fuel line_limit rest s 1 ∅) as [res|] eqn:E; [|done].
    by rewrite (chunk_loop_mono _ _ _ _ _ _ _ _ E Hle).
Qed.

(** ** The script body *)

Lemma count_subfiles_spec subdatafiles : ∀ wd wd',
  count_subfiles subdatafiles wd = Ok wd' →
  (∀ name, NoDup (keys (tuplecount wd !!! name))) →
  (∀ name, NoDup (keys (tuplecount wd' !!! name))) ∧
  subdata wd' = subdata wd ∧ report wd' = report wd.
Proof.
  induction subdatafiles as [|subdatafile rest IH]; intros wd wd' Hcount Hfiles.
  { simpl in Hcount. by simplify_eq. }
  cbn [count_subfiles] in Hcount.
  destruct (proc_baskets (subdata wd !!! subdatafile)) as [basket_out|e];
    [|done].
  simpl in Hcount. apply IH in Hcount; [done|].
  intros name. simpl.
  destruct (decide (count_file_name subdatafile = name)) as [<-|Hne].
  - rewrite lookup_total_insert_eq. apply tuple_count_rows_NoDup.
  - by rewrite lookup_total_insert_ne.
Qed.

Lemma main_stale fuel gzip_file line_limit wd1 wd2 :
  report wd1 = report wd2 →
  main fuel gzip_file line_limit wd1 = main fuel gzip_file line_limit wd2.
Proof.
  intros H. unfold main. by rewrite (create_subfiles_stale _ _ _ wd1 wd2 H).
Qed.

Lemma main_mono fuel fuel' gzip_file line_limit wd outcome :
  main fuel gzip_file line_limit wd = Some outcome → (fuel ≤ fuel')%nat →
  main fuel' gzip_file line_limit wd = Some outcome.
Proof.
  unfold main. intros H Hle.
  destruct (create_subfiles fuel gzip_file line_limit wd) as [r|] eqn:E; [|done].
  by rewrite (create_subfiles_mono _ _ _ _ _ _ E Hle).
Qed.

Lemma main_terminates gzip_file line_limit wd :
  0 ≤ line_limit →
  ∃ outcome, ∀ fuel, (length gzip_file ≤ fuel)%nat →
    main fuel gzip_file line_limit wd = Some outcome.
Proof.
  intros Hlimit.
  destruct (create_subfiles_terminates (length gzip_file) gzip_file line_limit wd
              Hlimit (reflexivity _)) as [r Hr].
  assert (is_Some (main (length gzip_file) gzip_file line_limit wd)) as [o Ho].
  { unfold main. rewrite Hr. by destruct r. }
  exists o. intros fuel Hfuel. by apply (main_mono _ _ _ _ _ _ Ho).
Qed.

(** The rows a run adds to the report carry distinct keys. *)
Lemma main_appended fuel gzip_file line_limit wd wd' :
  main fuel gzip_file line_limit wd = Some (Ok wd') →
  ∃ appended,
    report_rows wd' = report_rows wd ++ appended ∧ NoDup (keys appended).
Proof.
  unfold main. intros H.
  destruct (create_subfiles fuel gzip_file line_limit wd) as [[flag wd1]|] eqn:E;
    [|done].
  apply create_subfiles_tuplecount in E as [Hempty Hrep].
  destruct (count_subfiles (map_to_list (subdata wd1)).*1 wd1) as [wd2|e] eqn:E2;
    [|done].
  simpl in H. simplify_eq.
  apply count_subfiles_spec in E2 as (Hfiles & _ & Hrep2).
  2:{ intros name. rewrite Hempty, lookup_total_empty. apply NoDup_nil_2. }
  destruct (proc_subdata_spec wd2 Hfiles) as (_ & appended & Happ & Hnd).
  exists appended. split; [|done].
  unfold report_rows in *. simpl. by rewrite Happ, Hrep2, Hrep.
Qed.

(** * The claims *)

(** ** Chunking *)

(** C2. Basket integrity fails: a basket of three rows with distinct
    products, read with a line budget of 1, is cut after its second row.
    The test that should keep a basket together compares the next line
    with the line just written, and the two lines of one basket differ in
    their product. *)
Theorem basket_split_across_chunks :
  create_subfiles 10 (Line <$> straddling_lines) 1 empty_dir
  = Some (true,
          WorkDir
            (<["subdata_001.csv" := [line "1,A"; line "1,B"]]>
               (<["subdata_002.csv" := [line "1,C"]]> ∅))
            ∅ None)
  ∧ "1" ∈ basket_ids (csv_reader [line "1,A"; line "1,B"])
  ∧ "1" ∈ basket_ids (csv_reader [line "1,C"]).
Proof.
  split_and!.
  - vm_compute. reflexivity.
  - vm_compute. apply elem_of_cons; auto.
  - vm_compute. apply elem_of_cons; auto.
Qed.

(** C7. A failed chunking does not stop the run: on an archive that
    breaks after two lines [create_subfiles] returns [False], and the script
    goes on to count the partial chunk and writes a report from it. *)
Theorem failed_chunking_not_propagated :
  (∃ wd, create_subfiles 10 truncated_input 1000 empty_dir = Some (false, wd)
         ∧ subdata wd = {["subdata_001.csv" := [line "1,A"; line "1,B"]]})
  ∧ main 10 truncated_input 1000 empty_dir
    = Some (Ok (WorkDir ∅ ∅ (Some [CountRow "A" "B" 1]))).
Proof.
  split.
  - eexists. split; [vm_compute; reflexivity..].
  - vm_compute. reflexivity.
Qed.

(** ** Basket assembly and pair counting *)

(** The pairs of one basket, for all rows that are accepted. *)
Lemma baskets_of_rows_pairs csv_f fob basket tuples :
  baskets_of_rows csv_f = Ok fob → (basket, tuples) ∈ fob →
  NoDup tuples ∧
  ∀ e1 e2, (e1, e2) ∈ tuples ↔
    e1 ∈ products_of basket csv_f ∧
    e2 ∈ products_of basket csv_f ∧ String.ltb e1 e2 = true.
Proof.
  intros Hok Hin. destruct (baskets_of_rows_ok csv_f fob Hok) as (_ & _ & Htuples).
  rewrite (Htuples basket tuples Hin). split.
  - apply NoDup_basket_tuples. rewrite NoDup_sorted. apply NoDup_remove_dups.
  - intros e1 e2. rewrite elem_of_basket_tuples, !elem_of_sorted.
    unfold set. by rewrite !elem_of_remove_dups.
Qed.

Lemma proc_baskets_pairs f fob basket tuples :
  proc_baskets f = Ok fob → (basket, tuples) ∈ fob →
  NoDup tuples ∧
  ∀ e1 e2, (e1, e2) ∈ tuples ↔
    e1 ∈ products_of basket (csv_reader f) ∧
    e2 ∈ products_of basket (csv_reader f) ∧ String.ltb e1 e2 = true.
Proof. apply baskets_of_rows_pairs. Qed.

Lemma baskets_of_rows_total csv_f :
  [] ∉ csv_f → ∃ fob, baskets_of_rows csv_f = Ok fob.
Proof.
  intros Hrows. destruct (baskets_of_rows csv_f) as [fob|e] eqn:E; [by exists fob|].
  apply baskets_of_rows_raise in E as [_ ?]. done.
Qed.

Lemma proc_baskets_total f :
  [] ∉ csv_reader f → ∃ fob, proc_baskets f = Ok fob.
Proof. apply baskets_of_rows_total. Qed.

(** Two different members need a list of length two. *)
Lemma two_distinct_elements (l : list string) e1 e2 :
  NoDup l → e1 ∈ l → e2 ∈ l → e1 ≠ e2 → (2 ≤ length l)%nat.
Proof.
  intros Hnd H1 H2 Hne.
  destruct l as [|x [|y l]]; simpl; [by apply elem_of_nil in H1| |lia].
  apply list_elem_of_singleton in H1, H2. congruence.
Qed.

(** C6. For all rows the reader yields, none of them empty,
    [proc_baskets] returns one entry per basket of the rows, and the pairs
    of a basket are exactly the pairs (e1, e2) of products of that basket
    with e1 < e2, each once; a basket with fewer than two distinct products
    has no pair; the basket b, a, c gives (a,b), (a,c), (b,c). *)
Theorem basket_pairs_are_combinations :
  (∀ csv_f, ([] ∉ csv_f) →
     ∃ fob, baskets_of_rows csv_f = Ok fob ∧
       NoDup fob.*1 ∧
       (∀ basket, basket ∈ fob.*1 ↔ basket ∈ basket_ids csv_f) ∧
       ∀ basket tuples, (basket, tuples) ∈ fob →
         NoDup tuples ∧
         (∀ e1 e2, (e1, e2) ∈ tuples ↔
            e1 ∈ products_of basket csv_f ∧
            e2 ∈ products_of basket csv_f ∧ String.ltb e1 e2 = true) ∧
         ((length (remove_dups (products_of basket csv_f)) < 2)%nat →
          tuples = []))
  ∧ proc_baskets [line "1,b"; line "1,a"; line "1,c"]
    = Ok [("1", [("a", "b"); ("a", "c"); ("b", "c")])].
Proof.
  split; [|vm_compute; reflexivity].
  intros csv_f Hrows. destruct (baskets_of_rows_total csv_f Hrows) as [fob Hok].
  exists fob. destruct (baskets_of_rows_ok csv_f fob Hok) as (Hnd & Hids & _).
  split_and!; try done.
  intros basket tuples Hin.
  destruct (baskets_of_rows_pairs csv_f fob basket tuples Hok Hin) as [Hnd' Hpairs].
  split_and!; try done.
  intros Hlen. destruct tuples as [|[e1 e2] tuples]; [done|]. exfalso.
  destruct (proj1 (Hpairs e1 e2)) as (H1 & H2 & Hlt);
    [apply elem_of_cons; auto|].
  assert (e1 ≠ e2) as Hne.
  { intros ->. by rewrite ltb_irrefl in Hlt. }
  pose proof (two_distinct_elements
                (remove_dups (products_of basket csv_f)) e1 e2
                (NoDup_remove_dups _)) as Htwo.
  rewrite !elem_of_remove_dups in Htwo. specialize (Htwo H1 H2 Hne). lia.
Qed.

Lemma basket_pairs_are_combinations_witness :
  ([] ∉ [["7"; "x"]; ["8"; "q"; "r"]; ["7"; "y"]]) ∧
  ∃ fob, baskets_of_rows [["7"; "x"]; ["8"; "q"; "r"]; ["7"; "y"]] = Ok fob ∧
         (∀ basket, basket ∈ fob.*1 ↔
            basket ∈ basket_ids [["7"; "x"]; ["8"; "q"; "r"]; ["7"; "y"]]).
Proof.
  assert ([] ∉ [["7"; "x"]; ["8"; "q"; "r"]; ["7"; "y"]]) as Hrows.
  { intros H. repeat (apply elem_of_cons in H as [H|H]; [done|]).
    by apply elem_of_nil in H. }
  split; [exact Hrows|].
  destruct (proj1 basket_pairs_are_combinations
              [["7"; "x"]; ["8"; "q"; "r"]; ["7"; "y"]] Hrows)
    as (fob & Hok & _ & Hids & _).
  by exists fob.
Defined.

(** On a plain line the reader yields the row without fields exactly when
    the line is blank. *)
Lemma plain_line_chomp l : plain_line l = true → l = chomp l +:+ nl.
Proof.
  unfold plain_line. intros [Hl _]%andb_prop. revert Hl.
  induction l as [|c l IH]; [done|]. cbn [plain_chars chomp].
  destruct (c =? ascii_of_nat 10)%char eqn:E10.
  - apply Ascii.eqb_eq in E10 as ->. intros Hl%String.eqb_eq. by subst.
  - intros [Hc Hl]%andb_prop.
    destruct (c =? ascii_of_nat 13)%char eqn:E13.
    + apply Ascii.eqb_eq in E13 as ->. done.
    + cbn [orb].
      change (String c (chomp l) +:+ nl) with (String c (chomp l +:+ nl)).
      f_equal. by apply IH.
Qed.

Lemma blank_row_blank_line l : plain_line l = true → csv_row l = [] ↔ l = nl.
Proof.
  intros Hl. pose proof (plain_line_chomp l Hl) as Hc. unfold csv_row.
  destruct (chomp l =? "")%string eqn:E.
  - apply String.eqb_eq in E. rewrite E in Hc. done.
  - apply String.eqb_neq in E. split.
    + destruct (chomp l); [done|]. simpl.
      destruct (a =? ",")%char; [done|]. by destruct (fields s).
    + intros ->. done.
Qed.

(** C9, as the code has it.  [proc_baskets] raises exactly when the reader
    yields a row without any field, and the exception is [IndexError]; on a
    plain line that is the blank line.  Any other row is accepted whatever
    its number of fields: the first field names the basket and every
    further field is one of its products. *)
Theorem proc_baskets_raises_on_blank_rows_only csv_f :
  (∀ e, baskets_of_rows csv_f = Raise e ↔ e = IndexError ∧ [] ∈ csv_f) ∧
  (([] ∉ csv_f) →
   ∃ fob, baskets_of_rows csv_f = Ok fob ∧
     (∀ basket, basket ∈ fob.*1 ↔ basket ∈ basket_ids csv_f) ∧
     ∀ basket tuples, (basket, tuples) ∈ fob →
       ∀ e1 e2, (e1, e2) ∈ tuples ↔
         e1 ∈ products_of basket csv_f ∧
         e2 ∈ products_of basket csv_f ∧ String.ltb e1 e2 = true) ∧
  (∀ l, plain_line l = true → csv_row l = [] ↔ l = nl).
Proof.
  split_and!; [intros e; apply baskets_of_rows_raise| |apply blank_row_blank_line].
  intros Hrows. destruct (baskets_of_rows_total csv_f Hrows) as [fob Hok].
  exists fob. destruct (baskets_of_rows_ok csv_f fob Hok) as (_ & Hids & _).
  split_and!; try done.
  intros basket tuples Hin. by apply (baskets_of_rows_pairs csv_f fob).
Qed.

Lemma proc_baskets_raises_on_blank_rows_only_witness :
  proc_baskets [line "1,A"; line ""; line "1,B"] = Raise IndexError.
Proof.
  apply (proj1 (proc_baskets_raises_on_blank_rows_only
                  (csv_reader [line "1,A"; line ""; line "1,B"]))).
  split; [done|]. vm_compute. apply elem_of_cons. right. apply elem_of_cons. by left.
Defined.

(** C9 as stated fails: a row of three fields and a row of one field are
    taken without any error, the first one adding two products to its
    basket. *)
Lemma malformed_rows_accepted :
  csv_reader [line "1,A,B"; line "2"] = [["1"; "A"; "B"]; ["2"]] ∧
  proc_baskets [line "1,A,B"; line "2"] = Ok [("1", [("A", "B")]); ("2", [])].
Proof. split; vm_compute; reflexivity. Qed.

(** C10. Every row [count_product_tuples] writes has a count of at least
    one, and its pair occurs in a basket of the chunk. *)
Theorem tuple_counts_positive subfile fob wd :
  Forall (λ row, 1 ≤ num_baskets row ∧
                 ∃ basket tuples, (basket, tuples) ∈ fob ∧ row_key row ∈ tuples)
    (tuplecount (count_product_tuples subfile fob wd) !!! count_file_name subfile).
Proof.
  simpl. rewrite lookup_total_insert_eq. apply Forall_forall. intros row Hrow.
  split; [|by apply tuple_count_rows_occur].
  by apply (proj1 (Forall_forall _ _) (tuple_count_rows_positive fob)).
Qed.

(** ** The merger *)

(** C3. The comparison pass does not remove the matched pairs only: the
    labels handed to [drop] are those of the whole boolean Series, so a
    secondary that shares a pair with the primary is written back empty.
    Here the secondary loses (A,C,1), which the primary does not have. *)
Theorem secondary_emptied_on_match :
  compare_file "subdata_002_tuplecount.csv"
    ([CountRow "A" "B" 1],
     {["subdata_002_tuplecount.csv" := [CountRow "A" "B" 1; CountRow "A" "C" 1]]})
  = ([CountRow "A" "B" 2], {["subdata_002_tuplecount.csv" := []]}).
Proof. vm_compute. reflexivity. Qed.

(** C4. In the scenario of the specification the two pair-count files are
    as stated, (A,B,1) and (A,B,1),(A,C,1), but the report is the single row
    (A,B,2): the row (A,C,1) goes when the second file is emptied.  The
    same holds for a whole run on an input the chunker cuts in that way. *)
Theorem scenario_report_misses_a_pair :
  (∃ wd, count_subfiles ["subdata_001.csv"; "subdata_002.csv"] scenario_chunks = Ok wd
         ∧ tuplecount wd
           = {["subdata_001_tuplecount.csv" := [CountRow "A" "B" 1];
              "subdata_002_tuplecount.csv" := [CountRow "A" "B" 1; CountRow "A" "C" 1]]}
         ∧ report (proc_subdata wd) = Some [CountRow "A" "B" 2])
  ∧ (∃ wd, create_subfiles 10 (Line <$> scenario_lines) 3 empty_dir = Some (true, wd)
           ∧ subdata wd
             = {["subdata_001.csv" := [line "1,A"; line "1,B"; line "1,B"; line "1,B"];
                "subdata_002.csv" := [line "2,A"; line "2,B"; line "3,A"; line "3,C"]]})
  ∧ main 10 (Line <$> scenario_lines) 3 empty_dir
    = Some (Ok (WorkDir ∅ ∅ (Some [CountRow "A" "B" 2]))).
Proof.
  split_and!.
  - eexists. split_and!; [vm_compute; reflexivity..].
  - eexists. split; [vm_compute; reflexivity..].
  - vm_compute. reflexivity.
Qed.

(** C1. Counts are not conserved: for four baskets cut into two chunks
    of two whole baskets each, the direct count finds four occurrences of a
    pair in a basket, and the report of the run sums to three. *)
Theorem count_not_conserved :
  (∃ wd, create_subfiles 10 (Line <$> four_baskets) 3 empty_dir = Some (true, wd)
         ∧ subdata wd
           = {["subdata_001.csv" := [line "1,A"; line "1,B"; line "2,A"; line "2,B"];
              "subdata_002.csv" := [line "3,A"; line "3,B"; line "4,A"; line "4,C"]]})
  ∧ direct_total four_baskets = Ok 4
  ∧ ∃ wd', main 10 (Line <$> four_baskets) 3 empty_dir = Some (Ok wd')
           ∧ report wd' = Some [CountRow "A" "B" 3]
           ∧ total (report_rows wd') = 3.
Proof.
  split_and!.
  - eexists. split; [vm_compute; reflexivity..].
  - vm_compute. reflexivity.
  - eexists. split_and!; [vm_compute; reflexivity..].
Qed.

(** C5, as the code has it.  On an input of plain lines whose product
    ids the merger reads back as written, read to its end or to a failing
    read, the rows a run adds to the report carry pairwise distinct pairs,
    whatever the working directory held before; hence a run that starts
    without a report file ends with a report in which every pair occurs
    once.  For a line budget that is not negative the run does end. *)
Theorem report_pairs_distinct lines tl line_limit wd :
  plain_input lines = true → (tl = [] ∨ ∃ rest, tl = ReadError :: rest) →
  (∀ fuel wd', main fuel ((Line <$> lines) ++ tl) line_limit wd = Some (Ok wd') →
     (∃ appended,
        report_rows wd' = report_rows wd ++ appended ∧ NoDup (keys appended)) ∧
     (report wd = None → NoDup (keys (report_rows wd')))) ∧
  (0 ≤ line_limit →
   ∃ outcome, ∀ fuel, (length ((Line <$> lines) ++ tl) ≤ fuel)%nat →
     main fuel ((Line <$> lines) ++ tl) line_limit wd = Some outcome).
Proof.
  intros _ _. split; [|apply main_terminates].
  intros fuel wd' Hmain.
  destruct (main_appended _ _ _ _ _ Hmain) as (appended & Happ & Hnd).
  split; [by exists appended|].
  intros Hnone. rewrite Happ. unfold report_rows. by rewrite Hnone.
Qed.

Lemma report_pairs_distinct_witness :
  plain_input scenario_lines = true
  ∧ main 10 ((Line <$> scenario_lines) ++ []) 1 empty_dir
    = Some (Ok (WorkDir ∅ ∅ (Some [CountRow "A" "B" 2; CountRow "A" "C" 1])))
  ∧ NoDup (keys [CountRow "A" "B" 2; CountRow "A" "C" 1]).
Proof.
  assert (main 10 ((Line <$> scenario_lines) ++ []) 1 empty_dir
          = Some (Ok (WorkDir ∅ ∅ (Some [CountRow "A" "B" 2; CountRow "A" "C" 1]))))
    as Hmain by (vm_compute; reflexivity).
  split_and!; [vm_compute; reflexivity|exact Hmain|].
  exact (proj2 (proj1 (report_pairs_distinct scenario_lines [] 1 empty_dir
                         eq_refl (or_introl eq_refl))
                  10%nat _ Hmain) eq_refl).
Defined.

(** C5 as stated fails for a run that finds the report of an earlier run:
    the report is appended to, and after the second run every pair stands
    in it twice. *)
Lemma second_run_repeats_pairs :
  ∃ wd1 wd2,
    main 10 (Line <$> four_baskets) 3 empty_dir = Some (Ok wd1) ∧
    main 10 (Line <$> four_baskets) 3 wd1 = Some (Ok wd2) ∧
    report wd2 = Some [CountRow "A" "B" 3; CountRow "A" "B" 3] ∧
    ¬ NoDup (keys (report_rows wd2)).
Proof.
  eexists _, _. split_and!; [vm_compute; reflexivity..|].
  vm_compute. intros H. apply NoDup_cons in H as [H _].
  apply H, elem_of_cons. by left.
Qed.

(** C8 as stated fails when the report of the first run is still there
    (what holds instead is proved at the end of the file):
    the intermediate files are gone, the second run appends to the report,
    and the two reports differ in their number of rows. *)
Lemma second_run_report_differs :
  ∃ wd1 wd2,
    main 10 (Line <$> four_baskets) 3 empty_dir = Some (Ok wd1) ∧
    subdata wd1 = ∅ ∧ tuplecount wd1 = ∅ ∧
    main 10 (Line <$> four_baskets) 3 wd1 = Some (Ok wd2) ∧
    ¬ (report_rows wd1 ≡ₚ report_rows wd2).
Proof.
  eexists _, _. split_and!; [vm_compute; reflexivity..|].
  vm_compute. intros H. apply Permutation_length in H. done.
Qed.

(** * Further properties of the code *)

(** ** File names *)

Lemma string_app_length (s1 s2 : string) :
  String.length (s1 +:+ s2) = (String.length s1 + String.length s2)%nat.
Proof. induction s1 as [|c s1 IH]; simpl; [done|]. by rewrite IH. Qed.

Lemma string_app_inv_tail (s1 s2 t : string) : s1 +:+ t = s2 +:+ t → s1 = s2.
Proof.
  revert s2. induction s1 as [|c s1 IH]; intros [|c2 s2] H; simpl in H.
  - done.
  - apply (f_equal String.length) in H.
    rewrite !string_app_length in H. simpl in H. lia.
  - apply (f_equal String.length) in H.
    rewrite !string_app_length in H. simpl in H. lia.
  - injection H as -> H. f_equal. by apply IH.
Qed.

(** Reading a zero-padded decimal string back gives the number. *)
Lemma uint_of_padded k d :
  NilEmpty.uint_of_string (repeat_char "0" k +:+ NilEmpty.string_of_uint d)
  = Some (Nat.iter k Decimal.D0 d).
Proof.
  induction k as [|k IH]; simpl.
  - apply NilEmpty.usu.
  - by rewrite IH.
Qed.

Lemma of_uint_padded k d :
  Nat.of_uint (Nat.iter k Decimal.D0 d) = Nat.of_uint d.
Proof. induction k as [|k IH]; simpl; [done|]. exact IH. Qed.

Lemma rjust_str_inj width n m :
  rjust width "0" (str n) = rjust width "0" (str m) → n = m.
Proof.
  unfold rjust, str. intros H.
  apply (f_equal NilEmpty.uint_of_string) in H.
  rewrite !uint_of_padded in H. injection H as H.
  apply (f_equal Nat.of_uint) in H.
  by rewrite !of_uint_padded, !DecimalNat.Unsigned.of_to in H.
Qed.

(** The counter can be read back from the file name. *)
Lemma subfile_name_inj n m : subfile_name n = subfile_name m → n = m.
Proof.
  unfold subfile_name. intros H. simpl in H. simplify_eq.
  apply string_app_inv_tail in H. by apply rjust_str_inj in H.
Qed.

(** X1. Different counters give different chunk file names, beyond the
    three padded digits too, so no chunk file is opened twice in one run. *)
Theorem chunk_file_names_distinct n m : n ≠ m → subfile_name n ≠ subfile_name m.
Proof. intros Hne Heq. by apply Hne, subfile_name_inj. Qed.

Lemma chunk_file_names_distinct_witness : subfile_name 999 ≠ subfile_name 1000.
Proof. apply chunk_file_names_distinct. lia. Defined.

(** ** The chunk files *)

Lemma fill_subfile_over line_limit gzip_f line_counter current_line out_f :
  line_limit < line_counter →
  fill_subfile line_limit gzip_f line_counter current_line out_f
  = (out_f, Ok (current_line, gzip_f)).
Proof.
  intros Hlt. destruct gzip_f; simpl; by rewrite (proj2 (Z.leb_gt _ _)) by lia.
Qed.

(** The lines one pass of the inner loop writes, on an input of lines that
    ends ([tl = []]) or breaks ([tl] starts with a failing read): the
    lines written are a prefix of the input, from the position of the line
    budget on they are all the same line, and the loop stops either at the
    end of the input, or at a failing read, or in front of a line that
    differs from the last line written. *)
Lemma fill_subfile_spec line_limit tl :
  (tl = [] ∨ ∃ rest, tl = ReadError :: rest) →
  ∀ ls line_counter current_line out_f,
  Forall (λ l, l ≠ EmptyString) ls → line_counter ≤ line_limit →
  ∃ w r,
    fill_subfile line_limit ((Line <$> ls) ++ tl) line_counter current_line out_f
      = (out_f ++ current_line :: w, r) ∧
    (∀ j x, (current_line :: w) !! j = Some x →
            (Z.to_nat (line_limit - line_counter) ≤ j)%nat →
            (current_line :: w) !! Z.to_nat (line_limit - line_counter) = Some x) ∧
    match r with
    | Ok (c', gz') =>
        (c' = EmptyString ∧ gz' = [] ∧ tl = [] ∧ ls = w) ∨
        (c' ≠ EmptyString ∧ ∃ ls',
           gz' = (Line <$> ls') ++ tl ∧ ls = w ++ c' :: ls' ∧
           (Z.to_nat (line_limit - line_counter) < length (current_line :: w))%nat ∧
           last (current_line :: w) ≠ Some c')
    | Raise e => e = OSError ∧ tl ≠ [] ∧ ls = w
    end.
Proof.
  intros Htl. induction ls as [|s ls IH];
    intros line_counter current_line out_f Hne Hle.
  - exists [].
    assert (∀ j x, [current_line] !! j = Some x →
              (Z.to_nat (line_limit - line_counter) ≤ j)%nat →
              [current_line] !! Z.to_nat (line_limit - line_counter) = Some x)
      as Hshape.
    { intros [|j] x Hj Hd; [|done].
      by replace (Z.to_nat (line_limit - line_counter)) with 0%nat by lia. }
    destruct Htl as [->|[rest ->]]; simpl;
      rewrite (proj2 (Z.leb_le _ _) Hle).
    + eexists. split_and!; [done|done|]. by left.
    + eexists. split_and!; [done|done|]. done.
  - apply Forall_cons in Hne as [Hs Hne].
    rewrite fmap_cons. cbn [app fill_subfile].
    rewrite (proj2 (Z.leb_le _ _) Hle), (proj2 (String.eqb_neq _ _) Hs).
    destruct ((line_counter =? line_limit) && (s =? current_line)%string) eqn:Hb.
    + apply andb_true_iff in Hb as [Hc Heq].
      apply Z.eqb_eq in Hc. apply String.eqb_eq in Heq. subst s.
      destruct (IH line_counter current_line (out_f ++ [current_line]) Hne Hle)
        as (w & r & Hfill & Hshape & Hr).
      exists (current_line :: w), r. rewrite Hfill. split_and!.
      * by rewrite <- (assoc_L (++)).
      * replace (Z.to_nat (line_limit - line_counter)) with 0%nat in * by lia.
        intros [|j] x Hj _; [done|]. simpl in Hj |- *.
        specialize (Hshape j x Hj). simpl in Hshape. apply Hshape. lia.
      * destruct r as [[c' gz']|e].
        -- destruct Hr as [(-> & -> & -> & ->)|(Hc' & ls' & -> & -> & Hlen & Hlast)].
           ++ by left.
           ++ right. split; [done|]. exists ls'. split_and!; try done.
              simpl in *. lia.
        -- destruct Hr as (-> & ? & ->). done.
    + destruct (decide (line_counter + 1 ≤ line_limit)) as [Hle'|Hgt].
      * destruct (IH (line_counter + 1) s (out_f ++ [current_line]) Hne Hle')
          as (w & r & Hfill & Hshape & Hr).
        exists (s :: w), r. rewrite Hfill.
        assert (Z.to_nat (line_limit - line_counter)
                = S (Z.to_nat (line_limit - (line_counter + 1)))) as Hd by lia.
        rewrite Hd. split_and!.
        -- by rewrite <- (assoc_L (++)).
        -- intros [|j] x Hj Hdj; [lia|]. simpl in Hj |- *.
           apply (Hshape j x Hj). lia.
        -- destruct r as [[c' gz']|e].
           ++ destruct Hr as [(-> & -> & -> & ->)|(Hc' & ls' & -> & -> & Hlen & Hlast)].
              ** by left.
              ** right. split; [done|]. exists ls'. split_and!; try done.
                 simpl in *. lia.
           ++ destruct Hr as (-> & ? & ->). done.
      * rewrite fill_subfile_over by lia.
        assert (line_counter = line_limit) as -> by lia.
        rewrite Z.eqb_refl in Hb. simpl in Hb. apply String.eqb_neq in Hb.
        exists [], (Ok (s, (Line <$> ls) ++ tl)). split_and!.
        -- done.
        -- intros [|j] x Hj _; [|done].
           by replace (Z.to_nat (line_limit - line_limit)) with 0%nat by lia.
        -- right. split; [done|]. exists ls. split_and!; try done.
           ++ simpl. lia.
           ++ simpl. congruence.
Qed.

Lemma subfile_names_fresh k j n :
  (j < k)%nat → subfile_name j ∉ subfile_name <$> seq k n.
Proof.
  intros Hlt Hin. apply list_elem_of_fmap in Hin as (i & Heq & Hi).
  apply subfile_name_inj in Heq as ->. apply elem_of_seq in Hi. lia.
Qed.

Lemma head_of_join (chunks : list (list string)) c ls :
  mjoin chunks = c :: ls → Forall (λ ch, ch ≠ []) chunks →
  ∃ ch chunks', chunks = ch :: chunks' ∧ head ch = Some c.
Proof.
  intros Hjoin Hne. destruct chunks as [|ch chunks']; [done|].
  apply Forall_cons in Hne as [Hch _].
  destruct ch as [|x ch]; [done|]. simpl in Hjoin. simplify_eq.
  by eexists _, _.
Qed.

(** The chunk files the outer loop writes, from counter [k] on. *)
Lemma chunk_loop_spec line_limit tl :
  0 ≤ line_limit → (tl = [] ∨ ∃ rest, tl = ReadError :: rest) →
  ∀ fuel ls current_line k files,
  Forall (λ l, l ≠ EmptyString) ls → current_line ≠ EmptyString →
  (length ls < fuel)%nat →
  (∀ j, (k ≤ j)%nat → files !! subfile_name j = None) →
  ∃ chunks,
    chunk_loop fuel line_limit ((Line <$> ls) ++ tl) current_line k files
      = Some (list_to_map (zip (subfile_name <$> seq k (length chunks)) chunks) ∪ files,
              match tl with [] => Ok () | _ => Raise OSError end) ∧
    mjoin chunks = current_line :: ls ∧
    Forall (λ ch, ch ≠ []) chunks ∧
    (∀ ch j x, ch ∈ chunks → ch !! j = Some x → (Z.to_nat line_limit ≤ j)%nat →
               ch !! Z.to_nat line_limit = Some x) ∧
    (∀ i ch ch', chunks !! i = Some ch → chunks !! S i = Some ch' →
                 (Z.to_nat line_limit < length ch)%nat ∧ last ch ≠ head ch').
Proof.
  intros Hlimit Htl. induction fuel as [|fuel IH];
    intros ls current_line k files Hne Hcur Hfuel Hfresh; [lia|].
  cbn [chunk_loop]. rewrite (proj2 (String.eqb_neq _ _) Hcur).
  rewrite (lookup_total_alt files), (Hfresh k) by done. simpl.
  destruct (fill_subfile_spec line_limit tl Htl ls 0 current_line [] Hne Hlimit)
    as (w & r & Hfill & Hshape & Hr).
  rewrite Hfill. simpl. rewrite Z.sub_0_r in Hshape, Hr.
  assert (list_to_map (zip (subfile_name <$> seq k 1) [current_line :: w]) ∪ files
          = <[subfile_name k := current_line :: w]> files) as Hone.
  { simpl. by rewrite <- insert_union_l, (left_id_L ∅ (∪)). }
  destruct r as [[c' gz']|e].
  - destruct Hr as [(-> & -> & -> & ->)|(Hc' & ls' & -> & -> & Hlen & Hlast)].
    + exists [current_line :: w]. cbn [length]. rewrite chunk_loop_eof, Hone.
      split_and!; try done.
      * simpl. by rewrite app_nil_r.
      * by repeat constructor.
      * intros ch j x ->%list_elem_of_singleton. apply Hshape.
    + destruct (IH ls' c' (S k) (<[subfile_name k := current_line :: w]> files))
        as (chunks & Hloop & Hjoin & Hnil & Hsame & Hnext).
      * apply Forall_app in Hne as [_ Hne]. by apply Forall_cons in Hne as [_ ?].
      * done.
      * rewrite length_app in Hfuel. simpl in Hfuel. lia.
      * intros j Hj. rewrite lookup_insert_ne; [apply Hfresh; lia|].
        intros Heq%subfile_name_inj. lia.
      * exists ((current_line :: w) :: chunks). rewrite Hloop. split_and!.
        -- f_equal. f_equal. cbn [length seq fmap list_fmap zip zip_with list_to_map foldr].
           simpl. rewrite <- insert_union_l, <- insert_union_r; [done|].
           apply not_elem_of_list_to_map_1.
           rewrite fst_zip by (by rewrite length_fmap, length_seq).
           apply subfile_names_fresh. lia.
        -- simpl. by rewrite Hjoin.
        -- constructor; done.
        -- intros ch j x [->|Hin]%elem_of_cons; [apply Hshape|by apply Hsame].
        -- intros [|i] ch ch' Hi Hi'; simpl in Hi, Hi'.
           ++ simplify_eq. split; [done|].
              destruct (head_of_join chunks c' ls' Hjoin Hnil)
                as (ch0 & chunks' & -> & Hhead).
              injection Hi' as <-. by rewrite Hhead.
           ++ by apply (Hnext i).
  - destruct Hr as (-> & Htl' & ->).
    exists [current_line :: w]. cbn [length]. rewrite Hone.
    split_and!; try done.
    + by destruct tl.
    + simpl. by rewrite app_nil_r.
    + by repeat constructor.
    + intros ch j x ->%list_elem_of_singleton. apply Hshape.
Qed.

(** What [create_subfiles] leaves, for a line budget that is not negative
    and an input of non-empty lines that ends or breaks: the flag, the chunk
    files in the order of their counters, and the shape of the chunks. *)
Lemma create_subfiles_chunks lines tl line_limit fuel wd :
  0 ≤ line_limit → (tl = [] ∨ ∃ rest, tl = ReadError :: rest) →
  Forall (λ l, l ≠ EmptyString) lines → (length lines ≤ fuel)%nat →
  ∃ chunks,
    create_subfiles fuel ((Line <$> lines) ++ tl) line_limit wd
      = Some (bool_decide (tl = []),
              WorkDir (list_to_map (zip (subfile_name <$> seq 1 (length chunks)) chunks))
                ∅ (report wd)) ∧
    mjoin chunks = lines ∧
    Forall (λ ch, ch ≠ []) chunks ∧
    (∀ ch j x, ch ∈ chunks → ch !! j = Some x → (Z.to_nat line_limit ≤ j)%nat →
               ch !! Z.to_nat line_limit = Some x) ∧
    (∀ i ch ch', chunks !! i = Some ch → chunks !! S i = Some ch' →
                 (Z.to_nat line_limit < length ch)%nat ∧ last ch ≠ head ch').
Proof.
  intros Hlimit Htl Hne Hfuel. unfold create_subfiles.
  destruct lines as [|c ls].
  - exists []. split_and!; try done.
    + destruct Htl as [->|[rest ->]]; simpl; [by rewrite chunk_loop_eof|done].
    + intros ch j x Hin. by apply elem_of_nil in Hin.
  - apply Forall_cons in Hne as [Hc Hne]. rewrite fmap_cons. cbn [app].
    destruct (chunk_loop_spec line_limit tl Hlimit Htl fuel ls c 1%nat ∅ Hne Hc)
      as (chunks & Hloop & Hrest); [simpl in Hfuel; lia|done|].
    exists chunks. split; [|done]. simpl. rewrite Hloop.
    rewrite (right_id_L ∅ (∪)).
    destruct Htl as [->|[rest ->]]; by simpl.
Qed.

(** X2. The chunker neither loses, repeats nor moves a line.  For a line
    budget that is not negative and an input of non-empty lines that ends,
    or breaks at some read, [create_subfiles] returns; the files
    [subdata_001.csv], [subdata_002.csv], ... are then the only
    intermediate files, none of them is empty, and read one after the other
    they give exactly the lines that came before the end or the failure.
    The flag is [True] exactly when no read failed, and the report file is
    left as it was. *)
Theorem create_subfiles_partitions_input lines tl line_limit fuel wd :
  0 ≤ line_limit → (tl = [] ∨ ∃ rest, tl = ReadError :: rest) →
  Forall (λ l, l ≠ EmptyString) lines → (length lines ≤ fuel)%nat →
  ∃ chunks,
    create_subfiles fuel ((Line <$> lines) ++ tl) line_limit wd
      = Some (bool_decide (tl = []),
              WorkDir (list_to_map (zip (subfile_name <$> seq 1 (length chunks)) chunks))
                ∅ (report wd)) ∧
    mjoin chunks = lines ∧
    Forall (λ ch, ch ≠ []) chunks.
Proof.
  intros Hlimit Htl Hne Hfuel.
  destruct (create_subfiles_chunks lines tl line_limit fuel wd Hlimit Htl Hne Hfuel)
    as (chunks & Hcreate & Hjoin & Hnil & _).
  by exists chunks.
Qed.

Lemma create_subfiles_partitions_input_witness :
  ∃ chunks,
    create_subfiles 10 ((Line <$> straddling_lines) ++ [ReadError]) 1 scenario_chunks
      = Some (false,
              WorkDir (list_to_map (zip (subfile_name <$> seq 1 (length chunks)) chunks))
                ∅ None) ∧
    mjoin chunks = straddling_lines ∧
    Forall (λ ch, ch ≠ []) chunks.
Proof.
  apply (create_subfiles_partitions_input straddling_lines [ReadError] 1 10
           scenario_chunks).
  - lia.
  - right. by exists [].
  - by repeat constructor.
  - simpl. lia.
Defined.

(** X3. The shape of the chunks, under the conditions of X2: every chunk
    file but the last holds more than [line_limit] lines; in every chunk
    file the lines from position [line_limit] on (counting from 0) are
    copies of one line; and the last line of a chunk file differs from the
    first line of the next one.  So a file runs over [line_limit + 1] lines
    only with repetitions of its line number [line_limit], and two equal
    neighbouring lines are never put into different files. *)
Theorem create_subfiles_chunk_shape lines tl line_limit fuel wd :
  0 ≤ line_limit → (tl = [] ∨ ∃ rest, tl = ReadError :: rest) →
  Forall (λ l, l ≠ EmptyString) lines → (length lines ≤ fuel)%nat →
  ∃ chunks flag,
    create_subfiles fuel ((Line <$> lines) ++ tl) line_limit wd
      = Some (flag,
              WorkDir (list_to_map (zip (subfile_name <$> seq 1 (length chunks)) chunks))
                ∅ (report wd)) ∧
    (∀ ch j x, ch ∈ chunks → ch !! j = Some x → (Z.to_nat line_limit ≤ j)%nat →
               ch !! Z.to_nat line_limit = Some x) ∧
    (∀ i ch ch', chunks !! i = Some ch → chunks !! S i = Some ch' →
                 (Z.to_nat line_limit < length ch)%nat ∧ last ch ≠ head ch').
Proof.
  intros Hlimit Htl Hne Hfuel.
  destruct (create_subfiles_chunks lines tl line_limit fuel wd Hlimit Htl Hne Hfuel)
    as (chunks & Hcreate & _ & _ & Hsame & Hnext).
  by exists chunks, (bool_decide (tl = [])).
Qed.

Lemma create_subfiles_chunk_shape_witness :
  ∃ chunks flag,
    create_subfiles 10 ((Line <$> scenario_lines) ++ []) 3 empty_dir
      = Some (flag,
              WorkDir (list_to_map (zip (subfile_name <$> seq 1 (length chunks)) chunks))
                ∅ None) ∧
    (∀ ch j x, ch ∈ chunks → ch !! j = Some x → (Z.to_nat 3 ≤ j)%nat →
               ch !! Z.to_nat 3 = Some x) ∧
    (∀ i ch ch', chunks !! i = Some ch → chunks !! S i = Some ch' →
                 (Z.to_nat 3 < length ch)%nat ∧ last ch ≠ head ch').
Proof.
  apply (create_subfiles_chunk_shape scenario_lines [] 3 10 empty_dir).
  - lia.
  - by left.
  - by repeat constructor.
  - simpl. lia.
Defined.

(** X4. With a negative [line_limit] and an input that is not empty the
    chunker never returns, whatever the fuel, and so the run never reaches
    a report. *)
Theorem negative_line_limit_never_returns fuel s rest line_limit wd :
  line_limit < 0 → s ≠ EmptyString →
  create_subfiles fuel (Line s :: rest) line_limit wd = None ∧
  main fuel (Line s :: rest) line_limit wd = None.
Proof.
  intros Hneg Hs.
  assert (create_subfiles fuel (Line s :: rest) line_limit wd = None) as Hnone.
  { unfold create_subfiles. simpl. by rewrite chunk_loop_diverges. }
  split; [done|]. unfold main. by rewrite Hnone.
Qed.

Lemma negative_line_limit_never_returns_witness :
  create_subfiles 50 (Line (line "1,A") :: [Line (line "1,B")]) (-1) empty_dir = None ∧
  main 50 (Line (line "1,A") :: [Line (line "1,B")]) (-1) empty_dir = None.
Proof.
  apply negative_line_limit_never_returns; [lia|done].
Defined.

(** ** The counts of a pair-count file *)

Section CounterCounts.
Context {K : Type} `{EqDecision K}.
Implicit Types (d : list (K * Z)) (k : K) (v : Z) (l : list K).

Lemma Counter_snoc l k : Counter (l ++ [k]) = dict_add k 1 (Counter l).
Proof. unfold Counter. by rewrite foldl_app. Qed.

Lemma dict_add_sum k v d :
  foldr Z.add 0 (dict_add k v d).*2 = foldr Z.add 0 d.*2 + v.
Proof.
  induction d as [|[k' n] d IH]; [simpl; lia|].
  cbn [dict_add]. case_decide; rewrite !fmap_cons; cbn [foldr snd].
  - lia.
  - rewrite IH. lia.
Qed.

Lemma Counter_sum l : foldr Z.add 0 (Counter l).*2 = Z.of_nat (length l).
Proof.
  induction l as [|k l IH] using rev_ind; [done|].
  rewrite Counter_snoc, dict_add_sum, IH, length_app. simpl. lia.
Qed.

(** Where an entry of an updated dictionary comes from. *)
Lemma elem_of_dict_add k v d k' n' :
  NoDup d.*1 → (k', n') ∈ dict_add k v d →
  (k' ≠ k ∧ (k', n') ∈ d) ∨
  (k' = k ∧ (((k ∉ d.*1) ∧ n' = 0 + v) ∨ ∃ n, (k, n) ∈ d ∧ n' = n + v)).
Proof.
  induction d as [|[k0 n0] d IH]; cbn [dict_add]; intros Hnd Hin.
  - apply list_elem_of_singleton in Hin. simplify_eq. right.
    split; [done|]. left. split; [apply not_elem_of_nil|done].
  - rewrite fmap_cons in Hnd |- *. cbn [fst] in Hnd |- *.
    apply NoDup_cons in Hnd as [Hk0 Hnd].
    case_decide as Hk; [subst k0|].
    + apply elem_of_cons in Hin as [Hin|Hin].
      * simplify_eq. right. split; [done|]. right. exists n0.
        split; [apply elem_of_cons; auto|done].
      * left. split; [|apply elem_of_cons; auto].
        intros ->. apply Hk0. by apply (list_elem_of_fmap_2 fst) in Hin.
    + apply elem_of_cons in Hin as [Hin|Hin].
      * simplify_eq. left. split; [done|]. apply elem_of_cons; auto.
      * destruct (IH Hnd Hin) as [[? ?]|[-> [[? ->]|(n & ? & ->)]]].
        -- left. split; [done|]. apply elem_of_cons; auto.
        -- right. split; [done|]. left. split; [|done].
           rewrite not_elem_of_cons. done.
        -- right. split; [done|]. right. exists n.
           split; [apply elem_of_cons; auto|done].
Qed.

Lemma filter_eq_nil l k : k ∉ l → filter (λ y, y = k) l = [].
Proof.
  intros Hk. apply elem_of_nil_inv. intros y Hy.
  apply list_elem_of_filter in Hy as [-> ?]. done.
Qed.

(** A [Counter] maps each element to its number of occurrences. *)
Lemma Counter_count l k n :
  (k, n) ∈ Counter l → n = Z.of_nat (length (filter (λ y, y = k) l)).
Proof.
  revert n. induction l as [|x l IH] using rev_ind; intros n Hin.
  { by apply elem_of_nil in Hin. }
  rewrite Counter_snoc in Hin.
  destruct (Counter_spec l) as (Hnd & _ & Hkeys).
  destruct (elem_of_dict_add _ _ _ _ _ Hnd Hin)
    as [[Hne Hin']|[-> [[Hnot ->]|(n0 & Hin' & ->)]]];
    rewrite filter_app, length_app.
  - rewrite (filter_cons_False _ x) by done. rewrite filter_nil. simpl.
    rewrite (IH n Hin'). lia.
  - rewrite (filter_cons_True (λ y, y = x) x) by done. rewrite filter_nil.
    rewrite filter_eq_nil; [done|]. by rewrite <- Hkeys.
  - rewrite (filter_cons_True (λ y, y = x) x) by done. rewrite filter_nil.
    rewrite (IH n0 Hin'). simpl. lia.
Qed.

(** In lists without repetition, an element occurs as often in their
    concatenation as there are lists that hold it. *)
Lemma count_in_join (ls : list (list K)) k :
  Forall NoDup ls →
  length (filter (λ y, y = k) (mjoin ls)) = length (filter (λ t, k ∈ t) ls).
Proof.
  induction 1 as [|t ls Ht _ IH]; [done|].
  simpl. rewrite filter_app, length_app, IH, filter_cons.
  assert (length (filter (λ y, y = k) t) = if decide (k ∈ t) then 1%nat else 0%nat)
    as ->.
  { case_decide as Hk; [|by rewrite filter_eq_nil].
    clear -Ht Hk. induction Ht as [|x t Hx _ IH]; [by apply elem_of_nil in Hk|].
    rewrite filter_cons. apply elem_of_cons in Hk as [->|Hk].
    - rewrite decide_True by done. by rewrite filter_eq_nil.
    - rewrite decide_False; [by apply IH|]. by intros ->. }
  by case_decide.
Qed.
End CounterCounts.

Lemma elem_of_tuple_count_rows fob row :
  row ∈ tuple_count_rows fob →
  (row_key row, num_baskets row) ∈ Counter (mjoin fob.*2).
Proof.
  rewrite tuple_count_rows_Counter. intros Hrow.
  apply list_elem_of_fmap in Hrow as ([[p1 p2] n] & -> & Hin). done.
Qed.

Lemma count_file_written subfile fob wd :
  tuplecount (count_product_tuples subfile fob wd) !!! count_file_name subfile
  = tuple_count_rows fob.
Proof. simpl. by rewrite lookup_total_insert_eq. Qed.

(** X5. A pair-count file has one row for each pair that occurs in a
    basket of the chunk: no pair is listed twice, none is left out, none is
    made up. *)
Theorem count_file_one_row_per_pair subfile fob wd :
  NoDup (keys (tuplecount (count_product_tuples subfile fob wd)
                 !!! count_file_name subfile)) ∧
  ∀ p, p ∈ keys (tuplecount (count_product_tuples subfile fob wd)
                   !!! count_file_name subfile)
       ↔ ∃ basket tuples, (basket, tuples) ∈ fob ∧ p ∈ tuples.
Proof.
  rewrite count_file_written. split; [apply tuple_count_rows_NoDup|].
  intros p. rewrite tuple_count_rows_keys.
  destruct (Counter_spec (mjoin fob.*2)) as (_ & _ & ->).
  rewrite list_elem_of_join. split.
  - intros (tuples & Hp & Hin).
    apply list_elem_of_fmap in Hin as ([basket tuples'] & -> & Hin).
    by exists basket, tuples'.
  - intros (basket & tuples & Hin & Hp). exists tuples. split; [done|].
    by apply (list_elem_of_fmap_2 snd) in Hin.
Qed.

(** X6. For the baskets [proc_baskets] returns for a chunk, the count
    written for a pair is the number of baskets of the chunk whose pair list
    holds that pair. *)
Theorem count_file_counts_baskets f fob subfile wd :
  proc_baskets f = Ok fob →
  Forall (λ row, num_baskets row
                 = Z.of_nat (length (filter (λ bt, row_key row ∈ bt.2) fob)))
    (tuplecount (count_product_tuples subfile fob wd) !!! count_file_name subfile).
Proof.
  intros Hok. rewrite count_file_written. apply Forall_forall. intros row Hrow.
  apply elem_of_tuple_count_rows, Counter_count in Hrow. rewrite Hrow.
  rewrite count_in_join.
  - f_equal. clear. induction fob as [|bt fob IH]; [done|].
    rewrite fmap_cons, !filter_cons. case_decide; simpl; by rewrite IH.
  - apply Forall_fmap, Forall_forall. intros [basket tuples] Hin.
    by destruct (proc_baskets_pairs f fob basket tuples Hok Hin).
Qed.

Lemma count_file_counts_baskets_witness :
  Forall (λ row, num_baskets row
                 = Z.of_nat (length (filter (λ bt, row_key row ∈ bt.2)
                                       [("1", [("A", "B")]);
                                        ("2", [("A", "B"); ("A", "C"); ("B", "C")])])))
    (tuplecount
       (count_product_tuples "subdata_001.csv"
          [("1", [("A", "B")]); ("2", [("A", "B"); ("A", "C"); ("B", "C")])]
          empty_dir)
     !!! count_file_name "subdata_001.csv").
Proof.
  apply (count_file_counts_baskets
           [line "1,A"; line "1,B"; line "2,C"; line "2,B"; line "2,A"]).
  vm_compute. reflexivity.
Defined.

(** X7. The counts of a pair-count file add up to the number of pairs
    listed in the baskets of the chunk. *)
Theorem count_file_total subfile fob wd :
  total (tuplecount (count_product_tuples subfile fob wd) !!! count_file_name subfile)
  = Z.of_nat (length (mjoin fob.*2)).
Proof.
  rewrite count_file_written, tuple_count_rows_Counter. unfold total.
  by rewrite <- list_fmap_compose, <- Counter_sum.
Qed.

(** ** The order of strings and of sorted lists *)

Lemma ascii_compare_lt_trans a b c :
  Ascii.compare a b = Lt → Ascii.compare b c = Lt → Ascii.compare a c = Lt.
Proof.
  unfold Ascii.compare. rewrite !N.compare_lt_iff. apply N.lt_trans.
Qed.

Lemma ascii_compare_refl a : Ascii.compare a a = Eq.
Proof. apply N.compare_refl. Qed.

Lemma string_compare_lt_trans s1 : ∀ s2 s3,
  String.compare s1 s2 = Lt → String.compare s2 s3 = Lt →
  String.compare s1 s3 = Lt.
Proof.
  induction s1 as [|a1 s1 IH]; intros [|a2 s2] [|a3 s3]; simpl; try done.
  destruct (Ascii.compare a1 a2) eqn:E12; try done;
    destruct (Ascii.compare a2 a3) eqn:E23; try done; intros H12 H23.
  - apply Ascii.compare_eq_iff in E12, E23. subst.
    rewrite ascii_compare_refl. by apply (IH s2).
  - apply Ascii.compare_eq_iff in E12. subst. by rewrite E23.
  - apply Ascii.compare_eq_iff in E23. subst. by rewrite E12.
  - by rewrite (ascii_compare_lt_trans a1 a2 a3).
Qed.

Lemma string_compare_refl s : String.compare s s = Eq.
Proof.
  pose proof (String.compare_antisym s s) as H.
  by destruct (String.compare s s).
Qed.

Lemma leb_trans s1 s2 s3 :
  String.leb s1 s2 = true → String.leb s2 s3 = true → String.leb s1 s3 = true.
Proof.
  unfold String.leb.
  destruct (String.compare s1 s2) eqn:E12; [|intros _|done].
  - apply String.compare_eq_iff in E12. by subst.
  - destruct (String.compare s2 s3) eqn:E23; [|intros _|done].
    + apply String.compare_eq_iff in E23. subst. by rewrite E12.
    + by rewrite (string_compare_lt_trans s1 s2 s3).
Qed.

Lemma ltb_leb_ne s1 s2 :
  String.ltb s1 s2 = true ↔ String.leb s1 s2 = true ∧ s1 ≠ s2.
Proof.
  unfold String.ltb, String.leb. split.
  - destruct (String.compare s1 s2) eqn:E; try done. intros _. split; [done|].
    intros ->. by rewrite string_compare_refl in E.
  - intros [Hle Hne]. destruct (String.compare s1 s2) eqn:E; try done.
    by apply String.compare_eq_iff in E.
Qed.

Lemma tuple_leb_total a b : tuple_leb a b = true ∨ tuple_leb b a = true.
Proof.
  unfold tuple_leb, String.ltb. rewrite (String.compare_antisym b.1 a.1).
  destruct (String.compare a.1 b.1) eqn:E; simpl; [|by left|by right].
  apply String.compare_eq_iff in E. rewrite E, !String.eqb_refl. simpl.
  apply String.leb_total.
Qed.

Section SortedOrder.
Context {A : Type} (leb : A → A → bool).
Hypothesis leb_total : ∀ a b, leb a b = true ∨ leb b a = true.

Lemma HdRel_insort x y l :
  leb y x = true → HdRel (λ a b, leb a b = true) y l →
  HdRel (λ a b, leb a b = true) y (insort leb x l).
Proof.
  intros Hyx Hl. destruct l as [|z l]; simpl; [by constructor|].
  destruct (leb x z); constructor; [done|]. by inversion Hl.
Qed.

Lemma Sorted_insort x l :
  Sorted (λ a b, leb a b = true) l → Sorted (λ a b, leb a b = true) (insort leb x l).
Proof.
  induction 1 as [|y l Hl IH Hhd]; simpl; [by repeat constructor|].
  destruct (leb x y) eqn:E.
  - constructor; [by constructor|by constructor].
  - constructor; [done|]. apply HdRel_insort; [|done].
    by destruct (leb_total x y) as [?|?]; [congruence|].
Qed.

(** [sorted] returns an ascending list. *)
Lemma Sorted_sorted l : Sorted (λ a b, leb a b = true) (sorted leb l).
Proof.
  induction l as [|x l IH]; simpl; [constructor|]. by apply Sorted_insort.
Qed.

Hypothesis leb_trans' : ∀ a b c, leb a b = true → leb b c = true → leb a c = true.
Hypothesis leb_antisym : ∀ a b, leb a b = true → leb b a = true → a = b.

(** For a total order, [sorted] depends on the elements only, not on the
    order in which they come. *)
Lemma sorted_permutation l1 l2 : l1 ≡ₚ l2 → sorted leb l1 = sorted leb l2.
Proof.
  intros Hperm.
  apply (@Sorted_unique A (λ a b, leb a b = true)).
  - intros a b c. apply leb_trans'.
  - intros a b. apply leb_antisym.
  - apply Sorted_sorted.
  - apply Sorted_sorted.
  - by rewrite !sorted_perm.
Qed.
End SortedOrder.

Lemma sorted_strings_permutation l1 l2 :
  l1 ≡ₚ l2 → sorted String.leb l1 = sorted String.leb l2.
Proof.
  apply sorted_permutation;
    [apply String.leb_total|apply leb_trans|apply String.leb_antisym].
Qed.

(** Lists without repetition that hold the same strings sort alike. *)
Lemma sorted_set_ext l1 l2 :
  (∀ x, x ∈ l1 ↔ x ∈ l2) → sorted String.leb (set l1) = sorted String.leb (set l2).
Proof.
  intros Hext. apply sorted_strings_permutation. unfold set.
  apply NoDup_Permutation; [apply NoDup_remove_dups..|].
  intros x. by rewrite !elem_of_remove_dups.
Qed.

(** ** What [proc_baskets] returns *)

Lemma elem_of_basket_ids csv_f basket :
  basket ∈ basket_ids csv_f ↔ ∃ row1, basket :: row1 ∈ csv_f.
Proof.
  unfold basket_ids. rewrite list_elem_of_omap. split.
  - intros ([|row0 row1] & Hin & Hhead); [done|].
    simpl in Hhead. simplify_eq. by exists row1.
  - intros (row1 & Hin). by exists (basket :: row1).
Qed.

Lemma elem_of_products_of csv_f basket p :
  p ∈ products_of basket csv_f ↔ ∃ row1, basket :: row1 ∈ csv_f ∧ p ∈ row1.
Proof.
  unfold products_of. rewrite list_elem_of_bind. split.
  - intros ([|row0 row1] & Hp & Hin); [by apply elem_of_nil in Hp|].
    case_decide; [|by apply elem_of_nil in Hp]. subst. by exists row1.
  - intros (row1 & Hin & Hp). exists (basket :: row1). split; [|done].
    by rewrite decide_True.
Qed.

(** The returned dictionary in closed form: the basket ids of the chunk in
    ascending order, each with the pairs of its sorted distinct products. *)
Lemma baskets_of_rows_closed csv_f fob :
  baskets_of_rows csv_f = Ok fob →
  fob = (λ key, (key, basket_tuples
                        (sorted String.leb (set (products_of key csv_f)))))
          <$> sorted String.leb (set (basket_ids csv_f)).
Proof.
  unfold baskets_of_rows.
  pose proof (read_baskets_spec csv_f ∅) as H.
  destruct (read_baskets csv_f ∅) as [d|e']; simpl; [|done].
  destruct H as [_ Hd]. intros [= <-].
  assert (∀ basket, d !! basket =
            if decide (basket ∈ basket_ids csv_f)
            then Some (products_of basket csv_f) else None) as Hd'.
  { intros basket. by rewrite Hd, lookup_empty. }
  clear Hd.
  rewrite (foldl_dict_update fst (λ bc, basket_tuples bc.2));
    [|rewrite deduped_keys, NoDup_sorted; apply NoDup_fst_map_to_list].
  unfold deduped. rewrite <- list_fmap_compose.
  assert (sorted String.leb (map_to_list d).*1
          = sorted String.leb (set (basket_ids csv_f))) as Hkeys.
  { apply sorted_strings_permutation, NoDup_Permutation;
      [apply NoDup_fst_map_to_list|apply NoDup_remove_dups|].
    intros basket. unfold set. rewrite elem_of_remove_dups, list_elem_of_fmap.
    split.
    - intros ([k v] & -> & Hkv). apply elem_of_map_to_list in Hkv.
      rewrite Hd' in Hkv. simpl in Hkv. by case_decide.
    - intros Hb. exists (basket, products_of basket csv_f).
      split; [done|]. apply elem_of_map_to_list. rewrite Hd'.
      by rewrite decide_True. }
  rewrite Hkeys. apply list_fmap_ext. intros i key Hi. simpl.
  do 3 f_equal. rewrite lookup_total_alt, Hd'.
  rewrite decide_True; [done|].
  apply list_elem_of_lookup_2 in Hi. apply elem_of_sorted in Hi.
  unfold Py.set in Hi. by rewrite elem_of_remove_dups in Hi.
Qed.

Lemma proc_baskets_closed f fob :
  proc_baskets f = Ok fob →
  fob = (λ key, (key, basket_tuples
                        (sorted String.leb (set (products_of key (csv_reader f))))))
          <$> sorted String.leb (set (basket_ids (csv_reader f))).
Proof. apply baskets_of_rows_closed. Qed.

(** X8. What [proc_baskets] returns depends on the set of rows the reader
    yields only: the order of the rows and repeated rows make no
    difference, neither to the baskets returned nor to the exception. *)
Theorem proc_baskets_ignores_row_order csv_f1 csv_f2 :
  (∀ row, row ∈ csv_f1 ↔ row ∈ csv_f2) →
  baskets_of_rows csv_f1 = baskets_of_rows csv_f2.
Proof.
  intros Hrows.
  destruct (baskets_of_rows csv_f1) as [fob1|e1] eqn:E1.
  - assert ([] ∉ csv_f2) as Hok.
    { rewrite <- Hrows. intros Hin.
      assert (baskets_of_rows csv_f1 = Raise IndexError) as Hr
        by (by apply baskets_of_rows_raise).
      congruence. }
    destruct (baskets_of_rows_total csv_f2 Hok) as [fob2 E2]. rewrite E2. f_equal.
    rewrite (baskets_of_rows_closed csv_f1 fob1 E1),
      (baskets_of_rows_closed csv_f2 fob2 E2).
    assert (sorted String.leb (set (basket_ids csv_f1))
            = sorted String.leb (set (basket_ids csv_f2))) as ->.
    { apply sorted_set_ext. intros b. rewrite !elem_of_basket_ids.
      by setoid_rewrite Hrows. }
    apply list_fmap_ext. intros _ key _. do 2 f_equal.
    apply sorted_set_ext. intros p. rewrite !elem_of_products_of.
    by setoid_rewrite Hrows.
  - apply baskets_of_rows_raise in E1 as [-> Hin]. symmetry.
    apply baskets_of_rows_raise. split; [done|]. by apply Hrows.
Qed.

Lemma proc_baskets_ignores_row_order_witness :
  baskets_of_rows [["1"; "b"]; ["2"; "x"]; ["1"; "a"]; ["2"; "y"]; ["1"; "b"]]
  = baskets_of_rows [["2"; "y"]; ["1"; "a"]; ["1"; "b"]; ["2"; "x"]].
Proof.
  apply proc_baskets_ignores_row_order. intros row.
  rewrite !elem_of_cons, !elem_of_nil. tauto.
Defined.

Lemma Sorted_NoDup_ltb l :
  Sorted (λ a b, String.leb a b = true) l → NoDup l →
  Sorted (λ a b, String.ltb a b = true) l.
Proof.
  induction 1 as [|x l Hl IH Hhd]; intros Hnd; [constructor|].
  apply NoDup_cons in Hnd as [Hx Hnd]. constructor; [by apply IH|].
  destruct Hhd as [|y l Hxy]; constructor.
  apply ltb_leb_ne. split; [done|]. intros ->. apply Hx, elem_of_cons. by left.
Qed.

(** X9. The order of the result: the baskets come in strictly ascending
    order of their id, whatever their order in the chunk file, and the pairs
    of a basket come in ascending order of Python tuples. *)
Theorem proc_baskets_ascending f fob :
  proc_baskets f = Ok fob →
  Sorted (λ a b, String.ltb a b = true) fob.*1 ∧
  ∀ basket tuples, (basket, tuples) ∈ fob →
    Sorted (λ p q, tuple_leb p q = true) tuples.
Proof.
  intros Hok. pose proof (proc_baskets_closed f fob Hok) as Hfob. split.
  - apply Sorted_NoDup_ltb; [|by destruct (proc_baskets_ok f fob Hok)].
    rewrite Hfob, <- list_fmap_compose.
    rewrite (list_fmap_ext _ id _ (λ _ _ _, eq_refl)), list_fmap_id.
    apply Sorted_sorted, String.leb_total.
  - intros basket tuples Hin. rewrite Hfob in Hin.
    apply list_elem_of_fmap in Hin as (key & [= -> ->] & _).
    apply Sorted_sorted, tuple_leb_total.
Qed.

Lemma proc_baskets_ascending_witness :
  Sorted (λ a b, String.ltb a b = true) ["1"; "2"] ∧
  ∀ basket tuples,
    (basket, tuples) ∈ [("1", [("a", "b"); ("a", "c"); ("b", "c")]); ("2", [])] →
    Sorted (λ p q, tuple_leb p q = true) tuples.
Proof.
  apply (proc_baskets_ascending
           [line "2,z"; line "1,c"; line "1,a"; line "1,b"]
           [("1", [("a", "b"); ("a", "c"); ("b", "c")]); ("2", [])]).
  vm_compute. reflexivity.
Defined.

(** ** One comparison of the merger *)

Lemma bind_if_filter {A B} (P : A → Prop) `{∀ x, Decision (P x)} (g : A → B) l :
  (x ← l; if decide (P x) then [g x] else []) = g <$> filter P l.
Proof.
  induction l as [|x l IH]; [done|].
  rewrite bind_cons, filter_cons, IH. by case_decide.
Qed.

Lemma merge_cons l left right :
  assign_sum (merge (l :: left) right)
  = ((λ r, CountRow (Product_1 l) (Product_2 l) (num_baskets l + num_baskets r))
       <$> filter (λ r, row_key l = row_key r) right)
    ++ assign_sum (merge left right).
Proof.
  unfold assign_sum, merge. rewrite bind_cons, fmap_app. f_equal.
  rewrite (bind_if_filter (λ r, row_key l = row_key r)
             (λ r, (row_key l, num_baskets l, num_baskets r))).
  by rewrite <- list_fmap_compose.
Qed.

(** Every row of the summed inner merge carries the key of a left row. *)
Lemma merge_keys_left left right k :
  k ∈ keys (assign_sum (merge left right)) → k ∈ keys left.
Proof.
  induction left as [|l left IH]; [done|].
  rewrite merge_cons, fmap_app, elem_of_app, fmap_cons, elem_of_cons.
  intros [Hk|Hk]; [left|right; by apply IH].
  apply list_elem_of_fmap in Hk as (u & -> & Hu).
  by apply list_elem_of_fmap in Hu as (r & -> & _).
Qed.

Lemma filter_key_nil k (df : DataFrame) :
  k ∉ keys df → filter (λ u, k = row_key u) df = [].
Proof.
  intros Hk. apply elem_of_nil_inv. intros u Hu.
  apply list_elem_of_filter in Hu as [-> Hu]. by apply Hk, list_elem_of_fmap_2.
Qed.

Lemma filter_key_all l (g : count_row → Z) (rs : DataFrame) :
  filter (λ u, row_key l = row_key u)
    ((λ r, CountRow (Product_1 l) (Product_2 l) (g r)) <$> rs)
  = (λ r, CountRow (Product_1 l) (Product_2 l) (g r)) <$> rs.
Proof.
  induction rs as [|r rs IH]; [done|].
  rewrite fmap_cons, filter_cons_True by reflexivity. by rewrite IH.
Qed.

(** The rows of the summed inner merge under the key of a left row. *)
Lemma merge_filter left right l :
  NoDup (keys left) → l ∈ left →
  filter (λ u, row_key l = row_key u) (assign_sum (merge left right))
  = (λ r, CountRow (Product_1 l) (Product_2 l) (num_baskets l + num_baskets r))
      <$> filter (λ r, row_key l = row_key r) right.
Proof.
  induction left as [|l0 left IH]; intros Hnd Hl; [by apply elem_of_nil in Hl|].
  rewrite fmap_cons in Hnd. apply NoDup_cons in Hnd as [Hl0 Hnd].
  rewrite merge_cons, filter_app.
  apply elem_of_cons in Hl as [->|Hl].
  - rewrite (filter_key_nil (row_key l0) (assign_sum (merge left right))),
      app_nil_r.
    + apply (filter_key_all l0 (λ r, num_baskets l0 + num_baskets r)).
    + intros Hk. by apply Hl0, (merge_keys_left left right).
  - rewrite IH by done.
    assert (row_key l ≠ row_key l0) as Hne.
    { intros Heq. apply Hl0. rewrite <- Heq. by apply list_elem_of_fmap_2. }
    rewrite (filter_key_nil (row_key l) (_ <$> _)); [done|].
    intros Hk. apply list_elem_of_fmap in Hk as (u & Hu & Hin).
    apply list_elem_of_fmap in Hin as (r & -> & _). done.
Qed.

(** The primary after the two merges and the row maximum: each count is
    raised by the count of the same pair in the secondary. *)
Lemma merge_left_sums proc_df comp_df upd_df :
  NoDup (keys comp_df) → Forall (λ r, 0 ≤ num_baskets r) comp_df →
  (∀ l, l ∈ proc_df →
     filter (λ u, row_key l = row_key u) upd_df
     = (λ r, CountRow (Product_1 l) (Product_2 l) (num_baskets l + num_baskets r))
         <$> filter (λ r, row_key l = row_key r) comp_df) →
  assign_max (merge_left proc_df upd_df)
  = (λ l, CountRow (Product_1 l) (Product_2 l)
            (num_baskets l + total (filter (λ r, row_key l = row_key r) comp_df)))
      <$> proc_df.
Proof.
  intros Hnd Hpos. induction proc_df as [|l proc_df IH]; intros Hupd; [done|].
  unfold assign_max, merge_left in *. rewrite bind_cons, !fmap_app, !fmap_cons.
  rewrite IH by (intros l' Hl'; apply Hupd, elem_of_cons; auto). f_equal.
  rewrite (Hupd l) by (apply elem_of_cons; auto).
  pose proof (filter_key_NoDup (row_key l) comp_df Hnd) as Hlen.
  destruct (filter (λ r, row_key l = row_key r) comp_df) as [|r [|r' rs]] eqn:E;
    simpl in Hlen; [| |lia].
  - simpl. unfold total. simpl. by rewrite Z.add_0_r.
  - simpl. unfold total. simpl.
    assert (0 ≤ num_baskets r) as Hr.
    { apply (proj1 (Forall_forall _ _) Hpos).
      assert (r ∈ filter (λ r, row_key l = row_key r) comp_df) as Hin
        by (rewrite E; apply elem_of_cons; auto).
      by apply list_elem_of_filter in Hin as [_ ?]. }
    do 2 f_equal. lia.
Qed.

Lemma assign_neutral (proc_df : DataFrame) :
  (λ l, CountRow (Product_1 l) (Product_2 l) (num_baskets l + 0)) <$> proc_df
  = proc_df.
Proof.
  induction proc_df as [|[p1 p2 n] proc_df IH]; [done|].
  rewrite fmap_cons, IH. simpl. by rewrite Z.add_0_r.
Qed.

Lemma mjoin_cons {A} (x : list A) (l : list (list A)) : mjoin (x :: l) = x ++ mjoin l.
Proof. done. Qed.

(** What [read_back] says about the counts. *)
Lemma read_back_counts frames :
  read_back frames = true → Forall (λ r, 0 ≤ num_baskets r) (mjoin frames).
Proof.
  unfold read_back. intros [[_ H]%andb_prop _]%andb_prop.
  apply Forall_forall. intros r Hr%list_elem_of_In.
  apply (proj1 (forallb_forall _ _) H) in Hr. lia.
Qed.

(** X10. What one comparison does to the primary.  When the two frames
    are read back as written and neither repeats a pair, the primary keeps
    its rows in their order, and the count of each row grows by the count
    the secondary holds for the same pair (by nothing when the secondary
    does not hold the pair). *)
Theorem compare_file_adds_counts comp_file proc_df files :
  read_back [proc_df; files !!! comp_file] = true →
  NoDup (keys proc_df) → NoDup (keys (files !!! comp_file)) →
  (compare_file comp_file (proc_df, files)).1
  = (λ l, CountRow (Product_1 l) (Product_2 l)
            (num_baskets l
             + total (filter (λ r, row_key l = row_key r) (files !!! comp_file))))
      <$> proc_df.
Proof.
  intros Hread Hproc Hcomp.
  assert (Forall (λ r, 0 ≤ num_baskets r) (files !!! comp_file)) as Hpos.
  { apply read_back_counts in Hread. rewrite !mjoin_cons in Hread.
    apply Forall_app in Hread as [_ Hread].
    by apply Forall_app in Hread as [Hread _]. }
  unfold compare_file.
  assert (∀ l, l ∈ proc_df →
            (∀ k, k ∈ keys proc_df → k ∉ keys (files !!! comp_file)) →
            filter (λ r, row_key l = row_key r) (files !!! comp_file) = [])
    as Hnone.
  { intros l Hl Hdis. apply filter_key_nil, Hdis. by apply list_elem_of_fmap_2. }
  case_bool_decide as Hsize.
  { simpl. rewrite Hsize. symmetry. apply assign_neutral. }
  case_bool_decide as Hmrg.
  { simpl. rewrite <- (assign_neutral proc_df) at 1.
    apply list_fmap_ext. intros _ l Hl%list_elem_of_lookup_2.
    rewrite Hnone; [done..|]. by apply merge_nil. }
  case_bool_decide as Hempty; simpl;
    apply merge_left_sums; try done; intros l Hl; by apply merge_filter.
Qed.

Lemma compare_file_adds_counts_witness :
  (compare_file "subdata_002_tuplecount.csv"
     ([CountRow "A" "B" 2; CountRow "B" "C" 1],
      {["subdata_002_tuplecount.csv" := [CountRow "A" "C" 1; CountRow "A" "B" 5]]})).1
  = [CountRow "A" "B" (2 + total [CountRow "A" "B" 5]);
     CountRow "B" "C" (1 + total [])].
Proof.
  rewrite compare_file_adds_counts.
  - vm_compute. reflexivity.
  - vm_compute. reflexivity.
  - refine (bool_decide_unpack _ _). vm_compute. exact I.
  - refine (bool_decide_unpack _ _). vm_compute. exact I.
Defined.

(** X11. What one comparison does to the secondary file, the two frames
    being read back as written: a file that shares no pair with the primary
    is left as it is, and a file that shares at least one pair is written
    back without any row. *)
Theorem compare_file_keeps_or_empties comp_file proc_df files :
  read_back [proc_df; files !!! comp_file] = true →
  ((∀ k, k ∈ keys proc_df → k ∉ keys (files !!! comp_file)) →
   compare_file comp_file (proc_df, files) = (proc_df, files)) ∧
  ((∃ k, k ∈ keys proc_df ∧ k ∈ keys (files !!! comp_file)) →
   (compare_file comp_file (proc_df, files)).2 = <[comp_file := []]> files).
Proof.
  intros _. unfold compare_file. split.
  - intros Hdis. case_bool_decide; [done|].
    rewrite bool_decide_true; [done|]. by apply merge_nil.
  - intros (k & Hk & Hk').
    rewrite bool_decide_false.
    2:{ intros Hnil. rewrite Hnil in Hk'. by apply elem_of_nil in Hk'. }
    rewrite bool_decide_false.
    2:{ intros Hnil. by apply (proj1 (merge_nil _ _) Hnil k). }
    rewrite bool_decide_false.
    2:{ intros Hnil%fmap_nil_inv. by apply (proj1 (merge_nil _ _) Hnil k). }
    simpl. by rewrite drop_index_of_all.
Qed.

Lemma compare_file_keeps_or_empties_witness :
  (compare_file "subdata_002_tuplecount.csv"
     ([CountRow "A" "B" 2],
      {["subdata_002_tuplecount.csv" := [CountRow "A" "C" 1; CountRow "A" "B" 5]]})).2
  = <["subdata_002_tuplecount.csv" := []]>
      {["subdata_002_tuplecount.csv" := [CountRow "A" "C" 1; CountRow "A" "B" 5]]}.
Proof.
  refine (proj2 (compare_file_keeps_or_empties _ _ _ _) _).
  - vm_compute. reflexivity.
  - exists ("A", "B"). split; refine (bool_decide_unpack _ _); vm_compute; exact I.
Defined.

(** ** The merger on whole directories *)

(** Any comparison leaves the files as they are or empties a file that
    held rows. *)
Lemma compare_file_files comp_file proc_df files :
  (compare_file comp_file (proc_df, files)).2 = files ∨
  ((compare_file comp_file (proc_df, files)).2 = <[comp_file := []]> files ∧
   files !!! comp_file ≠ []).
Proof.
  unfold compare_file. case_bool_decide as Hsize; [by left|].
  case_bool_decide; [by left|]. case_bool_decide; [by left|].
  right. simpl. by rewrite drop_index_of_all.
Qed.

Lemma compare_loop_files names : ∀ proc_df (files : gmap string DataFrame) name,
  let st := foldl (λ st name, compare_file name st) (proc_df, files) names in
  st.2 !! name = files !! name ∨
  (is_Some (files !! name) ∧ st.2 !! name = Some []).
Proof.
  induction names as [|comp_file names IH]; intros proc_df files name; [by left|].
  cbn [foldl].
  pose proof (compare_file_files comp_file proc_df files) as Hstep.
  destruct (compare_file comp_file (proc_df, files)) as [proc_df1 files1].
  simpl in Hstep.
  assert (files1 !! name = files !! name ∨
          (is_Some (files !! name) ∧ files1 !! name = Some [])) as H1.
  { destruct Hstep as [->|[-> Hne]]; [by left|].
    destruct (decide (comp_file = name)) as [->|Hneq].
    - right. rewrite lookup_insert_eq. split; [|done].
      rewrite lookup_total_alt in Hne. by destruct (files !! name).
    - left. by rewrite lookup_insert_ne. }
  destruct (IH proc_df1 files1 name) as [Heq|[Hsome Heq]].
  - simpl in *. by rewrite Heq.
  - right. split; [|done]. destruct H1 as [<-|[? H1]]; [done|done].
Qed.

Lemma process_loop_files subdata_list todo wd name :
  subdata (foldl (process_file subdata_list) wd todo) = subdata wd ∧
  (tuplecount (foldl (process_file subdata_list) wd todo) !! name
   = tuplecount wd !! name ∨
   (is_Some (tuplecount wd !! name) ∧
    tuplecount (foldl (process_file subdata_list) wd todo) !! name = Some [])).
Proof.
  induction todo as [|proc_file todo IH] using rev_ind; [by split; [|left]|].
  rewrite foldl_app. cbn [foldl]. destruct IH as [Hsub IH].
  set (wd1 := foldl (process_file subdata_list) wd todo) in *.
  unfold process_file. case_bool_decide; [by split|].
  rewrite foldl_compare_lookup.
  pose proof (compare_loop_files
                ((λ next_idx, subdata_list !!! next_idx)
                   <$> range (list_index proc_file subdata_list + 1) (length subdata_list))
                (tuplecount wd1 !!! proc_file) (tuplecount wd1) name) as Hloop.
  destruct (foldl _ (tuplecount wd1 !!! proc_file, tuplecount wd1) _)
    as [proc_df files].
  simpl in *. split; [done|].
  destruct Hloop as [->|[Hsome ->]]; [done|]. right. split; [|done].
  destruct IH as [<-|[? _]]; done.
Qed.

(** X12. The merger never adds, removes or rewrites rows of a pair-count
    file other than by emptying it: after [proc_subdata] every file is what
    it was or is empty, no file has appeared or gone, and the chunk files
    are untouched. *)
Theorem proc_subdata_only_empties wd name :
  subdata (proc_subdata wd) = subdata wd ∧
  (tuplecount (proc_subdata wd) !! name = tuplecount wd !! name ∨
   (is_Some (tuplecount wd !! name) ∧
    tuplecount (proc_subdata wd) !! name = Some [])).
Proof. apply process_loop_files. Qed.

Lemma compare_file_disjoint comp_file proc_df files :
  (∀ k, k ∈ keys proc_df → k ∉ keys (files !!! comp_file)) →
  compare_file comp_file (proc_df, files) = (proc_df, files).
Proof.
  intros Hdis. unfold compare_file. case_bool_decide; [done|].
  rewrite bool_decide_true; [done|]. by apply merge_nil.
Qed.

Lemma compare_loop_disjoint names proc_df files :
  (∀ name k, name ∈ names → k ∈ keys proc_df → k ∉ keys (files !!! name)) →
  foldl (λ st name, compare_file name st) (proc_df, files) names = (proc_df, files).
Proof.
  induction names as [|comp_file names IH]; intros Hdis; [done|].
  cbn [foldl]. rewrite compare_file_disjoint.
  - apply IH. intros name k Hin. apply Hdis, elem_of_cons. by right.
  - intros k. apply Hdis, elem_of_cons. by left.
Qed.

Lemma process_loop_disjoint sub files todo : ∀ seen rep,
  NoDup (seen ++ todo) →
  (∀ n1 n2 k, n1 ≠ n2 → k ∈ keys (files !!! n1) → k ∉ keys (files !!! n2)) →
  foldl (process_file (seen ++ todo)) (WorkDir sub files rep) todo
  = WorkDir sub files
      (match mjoin ((λ name, files !!! name) <$> todo) with
       | [] => rep
       | rows => Some (default [] rep ++ rows)
       end).
Proof.
  induction todo as [|proc_file rest IH]; intros seen rep Hnd Hdis; [done|].
  cbn [foldl].
  assert (proc_file ∉ seen) as Hdone.
  { apply NoDup_app in Hnd as (_ & Hd & _). intros Hin.
    apply (Hd _ Hin), elem_of_cons; auto. }
  assert (proc_file ∉ rest) as Hrest.
  { apply NoDup_app in Hnd as (_ & _ & Hd). by apply NoDup_cons in Hd as [? _]. }
  rewrite process_file_eq by done.
  rewrite (cons_middle proc_file seen rest), (assoc_L (++)) in Hnd |- *.
  rewrite fmap_cons. cbn [mjoin list_join]. simpl tuplecount.
  case_bool_decide as Hsize.
  { rewrite Hsize. simpl. by apply IH. }
  rewrite compare_loop_disjoint.
  2:{ intros name k Hin. apply Hdis. by intros ->. }
  simpl. rewrite IH by done.
  f_equal. destruct (files !!! proc_file) as [|r rows] eqn:E; [done|].
  destruct (mjoin ((λ name, files !!! name) <$> rest)) as [|r' rows'].
  - rewrite app_nil_r. by destruct rep.
  - simpl. destruct rep; simpl; by rewrite <- ?(assoc_L (++)).
Qed.

(** X13. When the pair-count files are read back as written and no two
    of them share a pair, the merger changes no file, and the rows it adds
    to the report are the rows of the files, file after file in the sorted
    order of the file names, counts unchanged.  With all files empty, or
    none, no report is created. *)
Theorem proc_subdata_disjoint_files wd :
  read_back (map_to_list (tuplecount wd)).*2 = true →
  (∀ n1 n2 k, n1 ≠ n2 →
     k ∈ keys (tuplecount wd !!! n1) → k ∉ keys (tuplecount wd !!! n2)) →
  proc_subdata wd
  = WorkDir (subdata wd) (tuplecount wd)
      (match mjoin ((λ name, tuplecount wd !!! name)
                      <$> sorted String.leb (map_to_list (tuplecount wd)).*1) with
       | [] => report wd
       | rows => Some (report_rows wd ++ rows)
       end).
Proof.
  intros _ Hdis. unfold proc_subdata. destruct wd as [sub files rep].
  apply (process_loop_disjoint sub files _ [] rep); [|done].
  change (NoDup (sorted String.leb (map_to_list files).*1)).
  rewrite NoDup_sorted. apply NoDup_fst_map_to_list.
Qed.

(** Files that share no pair, checked file by file. *)
Lemma files_disjoint (files : gmap string DataFrame) :
  map_Forall (λ n1 rows1,
    map_Forall (λ n2 rows2,
      n1 = n2 ∨ Forall (λ k, k ∉ keys rows2) (keys rows1)) files) files →
  ∀ n1 n2 k, n1 ≠ n2 → k ∈ keys (files !!! n1) → k ∉ keys (files !!! n2).
Proof.
  intros Hall n1 n2 k Hne H1 H2. rewrite lookup_total_alt in H1, H2.
  destruct (files !! n1) as [rows1|] eqn:E1; [|by apply elem_of_nil in H1].
  destruct (files !! n2) as [rows2|] eqn:E2; [|by apply elem_of_nil in H2].
  destruct (Hall n1 rows1 E1 n2 rows2 E2) as [?|Hdis]; [done|].
  simpl in H1, H2. by apply (proj1 (Forall_forall _ _) Hdis k).
Qed.

Lemma proc_subdata_disjoint_files_witness :
  proc_subdata disjoint_count_files
  = WorkDir ∅ (tuplecount disjoint_count_files)
      (Some [CountRow "A" "B" 2; CountRow "A" "C" 1; CountRow "B" "C" 4]).
Proof.
  rewrite proc_subdata_disjoint_files.
  - vm_compute. reflexivity.
  - vm_compute. reflexivity.
  - apply files_disjoint. refine (bool_decide_unpack _ _). vm_compute. exact I.
Defined.

(** ** The sums of the merger *)

Lemma total_cons r rows : total (r :: rows) = num_baskets r + total rows.
Proof. done. Qed.

Lemma total_app rows1 rows2 : total (rows1 ++ rows2) = total rows1 + total rows2.
Proof.
  induction rows1 as [|r rows1 IH]; [done|].
  rewrite <- app_comm_cons, !total_cons, IH. lia.
Qed.

Lemma total_nonneg rows : Forall (λ r, 0 ≤ num_baskets r) rows → 0 ≤ total rows.
Proof.
  induction 1 as [|r rows Hr _ IH]; [done|]. rewrite total_cons. lia.
Qed.

(** In a frame without repeated keys at most one row answers to a key. *)
Lemma sum_key_le (proc_df : DataFrame) k n :
  NoDup (keys proc_df) → 0 ≤ n →
  foldr Z.add 0 ((λ l, if decide (row_key l = k) then n else 0) <$> proc_df) ≤ n.
Proof.
  intros Hnd Hn. induction proc_df as [|l proc_df IH]; [done|].
  rewrite fmap_cons in Hnd. apply NoDup_cons in Hnd as [Hl Hnd].
  rewrite fmap_cons. cbn [foldr]. case_decide as Hk; [|specialize (IH Hnd); lia].
  assert (foldr Z.add 0
            ((λ l, if decide (row_key l = k) then n else 0) <$> proc_df) = 0)
    as ->; [|lia].
  clear IH Hnd. induction proc_df as [|l' proc_df IH]; [done|].
  rewrite fmap_cons in Hl. apply not_elem_of_cons in Hl as [Hne Hl].
  rewrite fmap_cons. cbn [foldr]. rewrite decide_False by congruence.
  by rewrite IH.
Qed.

(** The counts a primary can draw from a secondary are bounded by the
    total of the secondary. *)
Lemma sum_filters_le (proc_df comp_df : DataFrame) :
  NoDup (keys proc_df) → Forall (λ r, 0 ≤ num_baskets r) comp_df →
  foldr Z.add 0
    ((λ l, total (filter (λ r, row_key l = row_key r) comp_df)) <$> proc_df)
  ≤ total comp_df.
Proof.
  intros Hnd. induction 1 as [|c comp_df Hc _ IH].
  { induction proc_df as [|l proc_df IHp]; [done|].
    rewrite fmap_cons in Hnd. apply NoDup_cons in Hnd as [_ Hnd].
    rewrite fmap_cons. cbn [foldr]. rewrite filter_nil. specialize (IHp Hnd).
    unfold total at 1. simpl. lia. }
  rewrite total_cons.
  assert (foldr Z.add 0
            ((λ l, total (filter (λ r, row_key l = row_key r) (c :: comp_df)))
               <$> proc_df)
          = foldr Z.add 0
              ((λ l, if decide (row_key l = row_key c) then num_baskets c else 0)
                 <$> proc_df)
            + foldr Z.add 0
                ((λ l, total (filter (λ r, row_key l = row_key r) comp_df))
                   <$> proc_df)) as ->.
  { clear. induction proc_df as [|l proc_df IHp]; [done|].
    rewrite !fmap_cons. cbn [foldr]. rewrite IHp, filter_cons.
    case_decide; [rewrite total_cons|]; lia. }
  pose proof (sum_key_le proc_df (row_key c) (num_baskets c) Hnd Hc). lia.
Qed.

Lemma total_assign (proc_df : DataFrame) (g : count_row → Z) :
  total ((λ l, CountRow (Product_1 l) (Product_2 l) (num_baskets l + g l))
           <$> proc_df)
  = total proc_df + foldr Z.add 0 (g <$> proc_df).
Proof.
  induction proc_df as [|l proc_df IH]; [done|].
  rewrite !fmap_cons, !total_cons. cbn [foldr num_baskets]. rewrite IH. lia.
Qed.

(** One comparison moves counts from the secondary to the primary and
    creates none. *)
Lemma compare_file_total comp_file proc_df files :
  NoDup (keys proc_df) → NoDup (keys (files !!! comp_file)) →
  Forall (λ r, 0 ≤ num_baskets r) (files !!! comp_file) →
  let st := compare_file comp_file (proc_df, files) in
  total st.1 + total (st.2 !!! comp_file)
  ≤ total proc_df + total (files !!! comp_file).
Proof.
  intros Hproc Hcomp Hpos.
  destruct (compare_file_spec comp_file proc_df files Hproc Hcomp)
    as [_ [[Hsame Hdis]|[Hwiped _]]]; cbv zeta.
  - rewrite (compare_file_disjoint comp_file proc_df files Hdis). simpl. lia.
  - rewrite Hwiped, lookup_total_insert_eq.
    assert ((compare_file comp_file (proc_df, files)).1
            = (λ l, CountRow (Product_1 l) (Product_2 l)
                      (num_baskets l
                       + total (filter (λ r, row_key l = row_key r)
                                  (files !!! comp_file)))) <$> proc_df) as ->.
    { unfold compare_file.
      case_bool_decide as Hsize.
      { simpl. rewrite Hsize. symmetry. apply assign_neutral. }
      case_bool_decide as Hmrg.
      { simpl. rewrite <- (assign_neutral proc_df) at 1.
        apply list_fmap_ext. intros _ l Hl%list_elem_of_lookup_2.
        rewrite filter_key_nil; [done|].
        apply (proj1 (merge_nil _ _) Hmrg). by apply list_elem_of_fmap_2. }
      case_bool_decide as Hempty; simpl;
        apply merge_left_sums; try done; intros l Hl; by apply merge_filter. }
    rewrite (total_assign proc_df
               (λ l, total (filter (λ r, row_key l = row_key r) (files !!! comp_file)))).
    pose proof (sum_filters_le proc_df (files !!! comp_file) Hproc Hpos).
    change (total []) with 0. lia.
Qed.

Lemma compare_loop_total names : ∀ proc_df (files : gmap string DataFrame),
  NoDup names → NoDup (keys proc_df) →
  (∀ name, NoDup (keys (files !!! name))) →
  (∀ name, Forall (λ r, 0 ≤ num_baskets r) (files !!! name)) →
  let st := foldl (λ st name, compare_file name st) (proc_df, files) names in
  total st.1 + total (mjoin ((λ name, st.2 !!! name) <$> names))
  ≤ total proc_df + total (mjoin ((λ name, files !!! name) <$> names)) ∧
  (∀ name, name ∉ names → st.2 !!! name = files !!! name).
Proof.
  induction names as [|comp_file names IH];
    intros proc_df files Hnames Hproc Hfiles Hpos; [by split; [simpl; lia|]|].
  apply NoDup_cons in Hnames as [Hc Hnames]. cbn [foldl].
  pose proof (compare_file_total comp_file proc_df files Hproc (Hfiles comp_file)
                (Hpos comp_file)) as Hstep.
  destruct (compare_file_spec comp_file proc_df files Hproc (Hfiles comp_file))
    as [Hkeys _].
  pose proof (compare_file_files comp_file proc_df files) as Hfiles1.
  destruct (compare_file comp_file (proc_df, files)) as [proc_df1 files1].
  simpl in Hstep, Hkeys, Hfiles1.
  assert (∀ name, name ≠ comp_file → files1 !!! name = files !!! name) as Hother.
  { intros name Hne. destruct Hfiles1 as [->|[-> _]]; [done|].
    by rewrite lookup_total_insert_ne. }
  assert (∀ name, files1 !!! name = files !!! name ∨ files1 !!! name = [])
    as Hsame.
  { intros name. destruct (decide (name = comp_file)) as [->|Hne];
      [|left; by apply Hother].
    destruct Hfiles1 as [->|[-> _]]; [by left|right].
    by rewrite lookup_total_insert_eq. }
  destruct (IH proc_df1 files1) as [Hle Hout]; try done.
  { by rewrite Hkeys. }
  { intros name. destruct (Hsame name) as [->| ->]; [done|apply NoDup_nil_2]. }
  { intros name. destruct (Hsame name) as [->| ->]; [done|constructor]. }
  destruct (foldl _ (proc_df1, files1) names) as [proc_df' files'].
  cbn [fst snd] in Hle, Hout |- *. split.
  - rewrite !fmap_cons, !mjoin_cons, !total_app, (Hout comp_file Hc).
    assert ((λ name, files1 !!! name) <$> names = (λ name, files !!! name) <$> names)
      as Heq.
    { apply list_fmap_ext. intros i name Hi%list_elem_of_lookup_2.
      apply Hother. by intros ->. }
    rewrite Heq in Hle. lia.
  - intros name [Hne Hnot]%not_elem_of_cons.
    rewrite (Hout name Hnot). by apply Hother.
Qed.

Lemma process_loop_total rows0 todo : ∀ seen wd appended,
  NoDup (seen ++ todo) →
  (∀ name, NoDup (keys (tuplecount wd !!! name))) →
  (∀ name, Forall (λ r, 0 ≤ num_baskets r) (tuplecount wd !!! name)) →
  report_rows wd = rows0 ++ appended →
  ∃ appended',
    report_rows (foldl (process_file (seen ++ todo)) wd todo) = rows0 ++ appended' ∧
    total appended'
    ≤ total appended
      + total (mjoin ((λ name, tuplecount wd !!! name) <$> todo)).
Proof.
  induction todo as [|proc_file rest IH];
    intros seen wd appended Hnd Hfiles Hpos Hrep.
  { exists appended. split; [done|]. simpl. change (total []) with 0. lia. }
  cbn [foldl].
  assert (proc_file ∉ seen) as Hseen.
  { apply NoDup_app in Hnd as (_ & Hdis & _). intros Hin.
    apply (Hdis _ Hin), elem_of_cons; auto. }
  assert (NoDup rest) as Hrest.
  { apply NoDup_app in Hnd as (_ & _ & Hd). by apply NoDup_cons in Hd as [_ ?]. }
  rewrite process_file_eq by done.
  rewrite (cons_middle proc_file seen rest), (assoc_L (++)) in Hnd |- *.
  rewrite fmap_cons, mjoin_cons, total_app.
  case_bool_decide as Hsize.
  { destruct (IH (seen ++ [proc_file]) wd appended Hnd Hfiles Hpos Hrep)
      as (appended' & Happ & Hle).
    exists appended'. split; [done|]. rewrite Hsize. change (total []) with 0. lia. }
  destruct (compare_loop_total rest (tuplecount wd !!! proc_file) (tuplecount wd)
              Hrest (Hfiles proc_file) Hfiles Hpos) as [Hle _].
  destruct (compare_loop_spec rest (tuplecount wd !!! proc_file) (tuplecount wd)
              (Hfiles proc_file) Hfiles) as (_ & Hsame & _).
  destruct (foldl _ (tuplecount wd !!! proc_file, tuplecount wd) rest)
    as [proc_df files].
  simpl in Hle, Hsame |- *.
  match goal with
  | |- context [foldl _ ?w rest] =>
      destruct (IH (seen ++ [proc_file]) w (appended ++ proc_df))
        as (appended' & Happ & Hle')
  end; simpl.
  - done.
  - intros name. destruct (Hsame name) as [->| ->]; [done|apply NoDup_nil_2].
  - intros name. destruct (Hsame name) as [->| ->]; [done|constructor].
  - unfold report_rows in *. destruct (report wd) as [rows|]; simpl in *.
    + by rewrite Hrep, (assoc_L (++)).
    + symmetry in Hrep. apply app_eq_nil in Hrep as [-> ->]. done.
  - exists appended'. split; [done|]. simpl in Hle'. rewrite total_app in Hle'. lia.
Qed.

(** What [read_back] says about the counts of each file. *)
Lemma read_back_files (files : gmap string DataFrame) name :
  read_back (map_to_list files).*2 = true →
  Forall (λ r, 0 ≤ num_baskets r) (files !!! name).
Proof.
  intros Hread%read_back_counts. rewrite lookup_total_alt.
  destruct (files !! name) as [rows|] eqn:E; [|constructor]. simpl.
  apply Forall_forall. intros r Hr.
  apply (proj1 (Forall_forall _ _) Hread r), list_elem_of_join.
  exists rows. split; [done|]. apply list_elem_of_fmap.
  exists (name, rows). split; [done|]. by apply elem_of_map_to_list.
Qed.

(** X14. The merger never counts twice.  When the pair-count files are
    read back as written and none repeats a pair, the counts of the rows
    [proc_subdata] adds to the report sum to no more than the counts of all
    pair-count files together. *)
Theorem proc_subdata_never_overcounts wd :
  read_back (map_to_list (tuplecount wd)).*2 = true →
  (∀ name, NoDup (keys (tuplecount wd !!! name))) →
  ∃ appended,
    report_rows (proc_subdata wd) = report_rows wd ++ appended ∧
    total appended
    ≤ total (mjoin ((λ name, tuplecount wd !!! name)
                      <$> sorted String.leb (map_to_list (tuplecount wd)).*1)).
Proof.
  intros Hread Hfiles.
  assert (∀ name, Forall (λ r, 0 ≤ num_baskets r) (tuplecount wd !!! name))
    as Hpos by (intros name; by apply read_back_files).
  unfold proc_subdata.
  destruct (process_loop_total (report_rows wd)
              (sorted String.leb (map_to_list (tuplecount wd)).*1) [] wd []
           ) as (appended & Happ & Hle); try done.
  - rewrite app_nil_l, NoDup_sorted. apply NoDup_fst_map_to_list.
  - by rewrite app_nil_r.
  - exists appended. split; [done|]. change (total []) with 0 in Hle. lia.
Qed.

(** A property of the empty frame and of every file in the directory holds
    of whatever is read under any name. *)
Lemma files_forall (P : DataFrame → Prop) (files : gmap string DataFrame) :
  P [] → map_Forall (λ _ rows, P rows) files → ∀ name, P (files !!! name).
Proof.
  intros Hnil Hall name. rewrite lookup_total_alt.
  destruct (files !! name) as [rows|] eqn:E; [by apply (Hall name)|done].
Qed.

Lemma proc_subdata_never_overcounts_witness :
  ∃ appended,
    report_rows (proc_subdata two_count_files)
    = report_rows two_count_files ++ appended ∧
    total appended
    ≤ total (mjoin ((λ name, tuplecount two_count_files !!! name)
                      <$> sorted String.leb
                            (map_to_list (tuplecount two_count_files)).*1)).
Proof.
  apply (proc_subdata_never_overcounts two_count_files).
  - vm_compute. reflexivity.
  - apply (files_forall (λ rows, NoDup (keys rows))); [apply NoDup_nil_2|].
    refine (bool_decide_unpack _ _). vm_compute. exact I.
Defined.

(** ** Whole runs *)

Lemma subfile_names_NoDup k n : NoDup (subfile_name <$> seq k n).
Proof.
  apply NoDup_fmap_2_strong; [|apply NoDup_seq].
  intros i j _ _. apply subfile_name_inj.
Qed.

(** The chunk files by name: every file holds a chunk, and every chunk is
    held by a file. *)
Lemma chunk_files_lookup k (chunks : list (list string)) name ch :
  (list_to_map (zip (subfile_name <$> seq k (length chunks)) chunks)
     : gmap string (list string)) !! name = Some ch ↔
  ∃ i, name = subfile_name (k + i) ∧ chunks !! i = Some ch.
Proof.
  rewrite <- elem_of_list_to_map.
  2:{ rewrite fst_zip by (by rewrite length_fmap, length_seq).
      apply subfile_names_NoDup. }
  rewrite elem_of_lookup_zip_with. split.
  - intros (i & x & y & [= -> ->] & Hx & Hy). exists i. split; [|done].
    apply list_lookup_fmap_Some in Hx as (j & -> & Hj).
    apply lookup_seq in Hj as [-> _]. done.
  - intros (i & -> & Hi). exists i, (subfile_name (k + i)), ch.
    split_and!; [done| |done].
    apply list_lookup_fmap_Some. exists (k + i)%nat. split; [done|].
    apply lookup_seq. split; [done|]. by apply lookup_lt_Some in Hi.
Qed.

(** [count_subfiles] fails exactly when one of the files has a blank row;
    the chunk files are not changed by counting. *)
Lemma count_subfiles_raise subdatafiles : ∀ wd e,
  count_subfiles subdatafiles wd = Raise e ↔
  e = IndexError ∧
  ∃ subdatafile, subdatafile ∈ subdatafiles ∧
                 [] ∈ csv_reader (subdata wd !!! subdatafile).
Proof.
  induction subdatafiles as [|subdatafile rest IH]; intros wd e.
  { simpl. split; [done|]. intros [_ (x & Hx & _)]. by apply elem_of_nil in Hx. }
  cbn [count_subfiles].
  destruct (proc_baskets (subdata wd !!! subdatafile)) as [basket_out|e'] eqn:E;
    simpl.
  - rewrite IH. simpl. split; intros [-> (x & Hx & Hblank)]; (split; [done|]).
    + exists x. split; [apply elem_of_cons; auto|done].
    + apply elem_of_cons in Hx as [->|Hx]; [|by exists x].
      assert (proc_baskets (subdata wd !!! subdatafile) = Raise IndexError) as Hr
        by (by apply proc_baskets_raise).
      congruence.
  - apply proc_baskets_raise in E as [-> Hblank]. split.
    + intros [= <-]. split; [done|]. exists subdatafile.
      split; [apply elem_of_cons; auto|done].
    + by intros [-> _].
Qed.

(** After counting, a pair-count file is what it was or holds the rows
    counted for one of the listed chunk files. *)
Lemma count_subfiles_files subdatafiles : ∀ wd wd' name,
  count_subfiles subdatafiles wd = Ok wd' →
  tuplecount wd' !!! name = tuplecount wd !!! name ∨
  ∃ subdatafile fob,
    subdatafile ∈ subdatafiles ∧
    proc_baskets (subdata wd !!! subdatafile) = Ok fob ∧
    tuplecount wd' !!! name = tuple_count_rows fob.
Proof.
  induction subdatafiles as [|subdatafile rest IH]; intros wd wd' name Hcount.
  { simpl in Hcount. simplify_eq. by left. }
  cbn [count_subfiles] in Hcount.
  destruct (proc_baskets (subdata wd !!! subdatafile)) as [basket_out|e] eqn:E;
    [|done].
  simpl in Hcount. destruct (IH _ _ name Hcount) as [Heq|(f & fob & Hf & Hok & Heq)].
  - simpl in Heq. destruct (decide (count_file_name subdatafile = name)) as [<-|Hne].
    + right. exists subdatafile, basket_out. rewrite lookup_total_insert_eq in Heq.
      split_and!; [apply elem_of_cons; auto|done..].
    + left. by rewrite lookup_total_insert_ne in Heq.
  - right. exists f, fob. split_and!; [apply elem_of_cons; auto|done..].
Qed.

(** A run on an input that can be read to its end: the chunker succeeds,
    and the chunk files hold pieces of the input. *)
Lemma run_chunks lines line_limit fuel wd :
  0 ≤ line_limit → Forall (λ l, l ≠ EmptyString) lines → (length lines ≤ fuel)%nat →
  ∃ chunks wd1,
    create_subfiles fuel (Line <$> lines) line_limit wd = Some (true, wd1) ∧
    report wd1 = report wd ∧ tuplecount wd1 = ∅ ∧
    subdata wd1 = list_to_map (zip (subfile_name <$> seq 1 (length chunks)) chunks) ∧
    mjoin chunks = lines ∧
    (∀ i ch ch', chunks !! i = Some ch → chunks !! S i = Some ch' →
                 (Z.to_nat line_limit < length ch)%nat) ∧
    Forall (λ ch, ch ≠ []) chunks.
Proof.
  intros Hlimit Hne Hfuel.
  destruct (create_subfiles_chunks lines [] line_limit fuel wd Hlimit
              (or_introl eq_refl) Hne Hfuel)
    as (chunks & Hcreate & Hjoin & Hnil & _ & Hnext).
  rewrite app_nil_r in Hcreate. eexists chunks, _.
  split_and!; [exact Hcreate|done..| |done].
  intros i ch ch' Hi Hi'. by destruct (Hnext i ch ch' Hi Hi').
Qed.

Lemma chunk_file_lines (chunks : list (list string)) name l :
  l ∈ (list_to_map (zip (subfile_name <$> seq 1 (length chunks)) chunks)
         : gmap string (list string)) !!! name →
  l ∈ mjoin chunks.
Proof.
  rewrite lookup_total_alt.
  destruct (_ !! name) as [ch|] eqn:E; simpl; [|by intros ?%elem_of_nil].
  apply chunk_files_lookup in E as (i & _ & Hi). intros Hl.
  apply list_elem_of_join. exists ch. split; [done|].
  by apply list_elem_of_lookup_2 in Hi.
Qed.

(** Plain lines are not empty, so none of them reads as the end of the
    input. *)
Lemma plain_lines_nonempty lines :
  forallb plain_line lines = true → Forall (λ l, l ≠ EmptyString) lines.
Proof.
  intros H. apply Forall_forall. intros l Hl%list_elem_of_In.
  apply (proj1 (forallb_forall _ _) H) in Hl.
  apply plain_line_chomp in Hl. intros ->. done.
Qed.

Lemma plain_lines_blank lines l :
  forallb plain_line lines = true → l ∈ lines → csv_row l = [] ↔ l = nl.
Proof.
  intros H Hl%list_elem_of_In. apply blank_row_blank_line.
  by apply (proj1 (forallb_forall _ _) H).
Qed.

Lemma plain_input_lines lines :
  plain_input lines = true → forallb plain_line lines = true.
Proof. unfold plain_input. by intros [[? _]%andb_prop _]%andb_prop. Qed.

(** X15. A blank line anywhere in the input stops the whole run.  For a
    line budget that is not negative and a plain input read to its end,
    the run ends with an uncaught [IndexError] when some line of the input
    is blank, and ends normally when none is. *)
Theorem blank_line_aborts_run lines line_limit fuel wd :
  0 ≤ line_limit → plain_input lines = true → (length lines ≤ fuel)%nat →
  (nl ∈ lines →
   main fuel (Line <$> lines) line_limit wd = Some (Raise IndexError)) ∧
  ((nl ∉ lines) →
   ∃ wd', main fuel (Line <$> lines) line_limit wd = Some (Ok wd')).
Proof.
  intros Hlimit Hplain%plain_input_lines Hfuel.
  pose proof (plain_lines_nonempty lines Hplain) as Hne.
  destruct (run_chunks lines line_limit fuel wd Hlimit Hne Hfuel)
    as (chunks & wd1 & Hcreate & _ & _ & Hsub & Hjoin & _ & _).
  unfold main. rewrite Hcreate. split.
  - intros Hl.
    assert (count_subfiles (map_to_list (subdata wd1)).*1 wd1 = Raise IndexError)
      as ->; [|done].
    apply count_subfiles_raise. split; [done|].
    rewrite <- Hjoin in Hl. apply list_elem_of_join in Hl as (ch & Hl & Hch).
    apply list_elem_of_lookup_1 in Hch as [i Hi].
    assert (subdata wd1 !! subfile_name (1 + i) = Some ch) as Hfile.
    { rewrite Hsub. apply chunk_files_lookup. by exists i. }
    exists (subfile_name (1 + i)). split.
    + apply list_elem_of_fmap. exists (subfile_name (1 + i), ch).
      split; [done|]. by apply elem_of_map_to_list.
    + rewrite lookup_total_alt, Hfile. simpl.
      apply list_elem_of_fmap. by exists nl.
  - intros Hrows.
    destruct (count_subfiles (map_to_list (subdata wd1)).*1 wd1) as [wd2|e] eqn:E;
      [by eexists|].
    apply count_subfiles_raise in E as [_ (name & _ & Hblank)].
    apply list_elem_of_fmap in Hblank as (l & Hblank & Hl).
    rewrite Hsub in Hl. apply chunk_file_lines in Hl. rewrite Hjoin in Hl.
    symmetry in Hblank. apply (plain_lines_blank lines l Hplain Hl) in Hblank.
    by subst.
Qed.

Lemma blank_line_aborts_run_witness :
  main 10 (Line <$> [line "1,A"; line "1,B"; line ""; line "2,A"; line "2,B"]) 1
    two_count_files
  = Some (Raise IndexError).
Proof.
  apply (proj1 (blank_line_aborts_run
                  [line "1,A"; line "1,B"; line ""; line "2,A"; line "2,B"] 1 10
                  two_count_files ltac:(lia) ltac:(vm_compute; reflexivity)
                  ltac:(simpl; lia))).
  apply elem_of_cons. right. apply elem_of_cons. right. apply elem_of_cons. by left.
Defined.

Lemma proc_subdata_all_empty wd :
  (∀ name, tuplecount wd !!! name = []) → proc_subdata wd = wd.
Proof.
  intros Hempty. unfold proc_subdata.
  generalize (sorted String.leb (map_to_list (tuplecount wd)).*1) at 1 as subdata_list.
  intros subdata_list.
  induction (sorted String.leb (map_to_list (tuplecount wd)).*1)
    as [|proc_file todo IH] using rev_ind; [done|].
  rewrite foldl_app, IH. simpl. unfold process_file.
  by rewrite bool_decide_true by apply Hempty.
Qed.

Lemma tuple_count_rows_nil fob :
  (∀ basket tuples, (basket, tuples) ∈ fob → tuples = []) →
  tuple_count_rows fob = [].
Proof.
  intros Hnil. rewrite tuple_count_rows_Counter.
  assert (mjoin fob.*2 = []) as ->; [|done].
  apply elem_of_nil_inv. intros p Hp.
  apply list_elem_of_join in Hp as (tuples & Hp & Hin).
  apply list_elem_of_fmap in Hin as ([basket tuples'] & -> & Hin).
  rewrite (Hnil basket tuples' Hin) in Hp. by apply elem_of_nil in Hp.
Qed.

(** X16. No pairs, no report.  When the input, of plain lines, can be
    read to its end, has no blank line, and no basket in it has two
    different products, the run ends normally and leaves the report file as
    it was; in particular it creates none. *)
Theorem no_pairs_no_report lines line_limit fuel wd :
  0 ≤ line_limit → forallb plain_line lines = true → (length lines ≤ fuel)%nat →
  (nl ∉ lines) →
  (∀ basket e1 e2,
     e1 ∈ products_of basket (csv_reader lines) →
     e2 ∈ products_of basket (csv_reader lines) → e1 = e2) →
  main fuel (Line <$> lines) line_limit wd = Some (Ok (WorkDir ∅ ∅ (report wd))).
Proof.
  intros Hlimit Hplain Hfuel Hrows Hsingle.
  pose proof (plain_lines_nonempty lines Hplain) as Hne.
  destruct (run_chunks lines line_limit fuel wd Hlimit Hne Hfuel)
    as (chunks & wd1 & Hcreate & Hrep & Hcount & Hsub & Hjoin & _ & _).
  unfold main. rewrite Hcreate.
  destruct (count_subfiles (map_to_list (subdata wd1)).*1 wd1) as [wd2|e] eqn:E.
  2:{ apply count_subfiles_raise in E as [_ (name & _ & Hblank)].
      apply list_elem_of_fmap in Hblank as (l & Hblank & Hl).
      rewrite Hsub in Hl. apply chunk_file_lines in Hl. rewrite Hjoin in Hl.
      symmetry in Hblank. apply (plain_lines_blank lines l Hplain Hl) in Hblank.
      by subst. }
  simpl. do 2 f_equal.
  assert (∀ name, tuplecount wd2 !!! name = []) as Hempty.
  { intros name.
    destruct (count_subfiles_files _ _ _ name E) as [->|(f & fob & _ & Hok & ->)].
    { by rewrite Hcount, lookup_total_empty. }
    apply tuple_count_rows_nil. intros basket tuples Hin.
    destruct (proc_baskets_pairs _ fob basket tuples Hok Hin) as [_ Hpairs].
    destruct tuples as [|[e1 e2] tuples]; [done|]. exfalso.
    destruct (proj1 (Hpairs e1 e2)) as (H1 & H2 & Hlt); [apply elem_of_cons; auto|].
    assert (∀ e, e ∈ products_of basket (csv_reader (subdata wd1 !!! f)) →
                 e ∈ products_of basket (csv_reader lines)) as Hsubset.
    { intros e. rewrite !elem_of_products_of. intros (row1 & Hrow & He).
      exists row1. split; [|done].
      apply list_elem_of_fmap in Hrow as (l & -> & Hl).
      apply list_elem_of_fmap. exists l. split; [done|].
      rewrite Hsub in Hl. apply chunk_file_lines in Hl. by rewrite Hjoin in Hl. }
    rewrite (Hsingle basket e1 e2 (Hsubset _ H1) (Hsubset _ H2)) in Hlt.
    by rewrite ltb_irrefl in Hlt. }
  rewrite (proc_subdata_all_empty wd2 Hempty). unfold remove_subdata.
  apply count_subfiles_spec in E as (_ & _ & ->); [by rewrite Hrep|].
  intros name. rewrite Hcount, lookup_total_empty. apply NoDup_nil_2.
Qed.

Lemma no_pairs_no_report_witness :
  main 10 (Line <$> [line "1,A"; line "2,B"; line "2,B"; line "3,C"]) 1 empty_dir
  = Some (Ok (WorkDir ∅ ∅ None)).
Proof.
  apply (no_pairs_no_report [line "1,A"; line "2,B"; line "2,B"; line "3,C"] 1 10
           empty_dir).
  - lia.
  - vm_compute. reflexivity.
  - simpl. lia.
  - intros Hl. repeat (apply elem_of_cons in Hl as [Hl|Hl]; [done|]).
    by apply elem_of_nil in Hl.
  - intros basket e1 e2 (r1 & Hr1 & He1)%elem_of_products_of
      (r2 & Hr2 & He2)%elem_of_products_of.
    change (csv_reader [line "1,A"; line "2,B"; line "2,B"; line "3,C"])
      with [["1"; "A"]; ["2"; "B"]; ["2"; "B"]; ["3"; "C"]] in Hr1, Hr2.
    repeat (apply elem_of_cons in Hr1 as [Hr1|Hr1]);
      try (by apply elem_of_nil in Hr1);
      repeat (apply elem_of_cons in Hr2 as [Hr2|Hr2]);
      try (by apply elem_of_nil in Hr2);
      simplify_eq;
      apply list_elem_of_singleton in He1, He2; congruence.
Defined.

Lemma tuple_count_rows_total fob :
  total (tuple_count_rows fob) = Z.of_nat (length (mjoin fob.*2)).
Proof.
  rewrite tuple_count_rows_Counter. unfold total.
  by rewrite <- list_fmap_compose, <- Counter_sum.
Qed.

(** With a single pair-count file the merger has nothing to compare: the
    file goes to the report row for row. *)
Lemma proc_subdata_single sub name rows rep :
  proc_subdata (WorkDir sub {[name := rows]} rep)
  = WorkDir sub {[name := rows]}
      (match rows with [] => rep | _ => Some (default [] rep ++ rows) end).
Proof.
  unfold proc_subdata. cbn [tuplecount].
  rewrite map_to_list_singleton. cbn [fmap list_fmap fst sorted foldr insort].
  rewrite (process_loop_disjoint sub {[name := rows]} [name] [] rep).
  - cbn [fmap list_fmap]. rewrite mjoin_cons, lookup_total_singleton.
    rewrite decide_True by done. change (mjoin []) with (@nil count_row).
    rewrite app_nil_r. by destruct rows.
  - rewrite app_nil_l. apply NoDup_singleton.
  - intros n1 n2 k Hne H1 H2.
    destruct (decide (n1 = name)) as [->|Hn1].
    + rewrite (lookup_total_singleton_ne _ n2) in H2 by done.
      by apply elem_of_nil in H2.
    + rewrite (lookup_total_singleton_ne _ n1) in H1 by done.
      by apply elem_of_nil in H1.
Qed.

(** The number of pairs listed for the baskets of some rows is the count
    taken straight from the rows. *)
Lemma length_bind_ext {A B C} (f : A → list B) (g : A → list C) l :
  (∀ x, length (f x) = length (g x)) → length (l ≫= f) = length (l ≫= g).
Proof.
  intros Hfg. induction l as [|x l IH]; [done|].
  by rewrite !bind_cons, !length_app, IH, Hfg.
Qed.

Lemma length_bind_perm {A B} (f : A → list B) l1 l2 :
  l1 ≡ₚ l2 → length (l1 ≫= f) = length (l2 ≫= f).
Proof.
  induction 1 as [|x l1 l2 _ IH|x y l|l1 l2 l3 _ IH12 _ IH23].
  - done.
  - by rewrite !bind_cons, !length_app, IH.
  - rewrite !bind_cons, !length_app. lia.
  - by rewrite IH12.
Qed.

Lemma length_basket_tuples {T} (tag : string → string → T) ps :
  length (basket_tuples (sorted String.leb (set ps)))
  = length (e1 ← remove_dups ps; e2 ← remove_dups ps;
            if String.ltb e1 e2 then [tag e1 e2] else []).
Proof.
  unfold basket_tuples, set.
  rewrite (Permutation_length (sorted_perm _ _)).
  rewrite (length_bind_perm _ _ _ (sorted_perm String.leb (remove_dups ps))).
  apply length_bind_ext. intros e1.
  rewrite (length_bind_perm _ _ _ (sorted_perm String.leb (remove_dups ps))).
  apply length_bind_ext. intros e2. by destruct (String.ltb e1 e2).
Qed.

Lemma baskets_of_rows_count csv_f fob :
  baskets_of_rows csv_f = Ok fob →
  length (mjoin fob.*2) = pair_occurrences csv_f.
Proof.
  intros ->%baskets_of_rows_closed. unfold pair_occurrences.
  rewrite <- list_fmap_compose.
  rewrite <- (length_bind_perm _ _ _ (sorted_perm String.leb (set (basket_ids csv_f)))).
  generalize (sorted String.leb (set (basket_ids csv_f))). intros ids.
  induction ids as [|basket ids IH]; [done|].
  rewrite fmap_cons, mjoin_cons, bind_cons, !length_app, IH. f_equal.
  apply length_basket_tuples.
Qed.

(** X17. A run whose input fits into one chunk is exact.  When the input
    is plain, has at most [line_limit + 1] lines, can be read to its end
    and has no blank line, the chunker writes it into the single file
    [subdata_001.csv], and the rows the run adds to the report are the
    pair counts of the whole dataset, each pair once; their counts sum to
    the number of pairs of products in a basket, counted straight from
    the rows of the input. *)
Theorem single_chunk_run_is_exact lines line_limit fuel wd fob :
  0 ≤ line_limit → plain_input lines = true → lines ≠ [] →
  Z.of_nat (length lines) ≤ line_limit + 1 → (length lines ≤ fuel)%nat →
  proc_baskets lines = Ok fob →
  create_subfiles fuel (Line <$> lines) line_limit wd
    = Some (true, WorkDir {["subdata_001.csv" := lines]} ∅ (report wd)) ∧
  main fuel (Line <$> lines) line_limit wd
    = Some (Ok (WorkDir ∅ ∅
                  (match tuple_count_rows fob with
                   | [] => report wd
                   | rows => Some (report_rows wd ++ rows)
                   end))) ∧
  total (tuple_count_rows fob) = Z.of_nat (pair_occurrences (csv_reader lines)).
Proof.
  intros Hlimit Hplain%plain_input_lines Hnil Hlen Hfuel Hok.
  pose proof (plain_lines_nonempty lines Hplain) as Hne.
  destruct (run_chunks lines line_limit fuel wd Hlimit Hne Hfuel)
    as (chunks & [sub files rep] & Hcreate & Hrep & Hcount & Hsub & Hjoin & Hnext & Hch).
  simpl in Hrep, Hcount, Hsub. subst rep files.
  assert (chunks = [lines]) as ->.
  { destruct chunks as [|ch [|ch' rest]].
    - by rewrite <- Hjoin in Hnil.
    - rewrite mjoin_cons in Hjoin. simpl in Hjoin. rewrite app_nil_r in Hjoin.
      by subst.
    - exfalso. specialize (Hnext 0%nat ch ch' eq_refl eq_refl).
      apply Forall_cons in Hch as [_ Hch]. apply Forall_cons in Hch as [Hch' _].
      rewrite <- Hjoin, !mjoin_cons, !length_app in Hlen.
      destruct ch' as [|x ch']; [done|]. simpl in Hlen. lia. }
  assert (sub = {["subdata_001.csv" := lines]}) as ->.
  { rewrite Hsub. simpl. by rewrite insert_empty. }
  split; [done|]. split.
  - unfold main. rewrite Hcreate. cbn [subdata].
    rewrite map_to_list_singleton. cbn [fmap list_fmap fst count_subfiles subdata].
    rewrite lookup_total_singleton_eq, Hok. cbn [bind].
    unfold count_product_tuples. cbn [subdata tuplecount report].
    rewrite insert_empty, proc_subdata_single. unfold remove_subdata, report_rows.
    cbn [report]. by destruct (tuple_count_rows fob).
  - rewrite tuple_count_rows_total. f_equal. by apply baskets_of_rows_count.
Qed.

Lemma single_chunk_run_is_exact_witness :
  main 10 (Line <$> scenario_lines) 7 empty_dir
  = Some (Ok (WorkDir ∅ ∅ (Some [CountRow "A" "B" 2; CountRow "A" "C" 1]))) ∧
  total [CountRow "A" "B" 2; CountRow "A" "C" 1]
  = Z.of_nat (pair_occurrences (csv_reader scenario_lines)).
Proof.
  destruct (single_chunk_run_is_exact scenario_lines 7 10 empty_dir
              [("1", [("A", "B")]); ("2", [("A", "B")]); ("3", [("A", "C")])])
    as (_ & Hmain & Hdirect).
  - lia.
  - vm_compute. reflexivity.
  - done.
  - simpl. lia.
  - simpl. lia.
  - vm_compute. reflexivity.
  - split; [exact Hmain|exact Hdirect].
Defined.

(** ** The names of the pair-count files *)

Section CountFileNames.
#[local] Arguments String.append !_ _ / : simpl nomatch.

Lemma string_app_assoc (s1 s2 s3 : string) :
  (s1 +:+ s2) +:+ s3 = s1 +:+ (s2 +:+ s3).
Proof. induction s1 as [|c s1 IH]; simpl; [done|]. by f_equal. Qed.

(** [replace] passes over decimal digits and over padding zeros. *)
Lemma replace_digits new d t :
  replace_from ".csv" new 0 (NilEmpty.string_of_uint d +:+ t)
  = NilEmpty.string_of_uint d +:+ replace_from ".csv" new 0 t.
Proof. induction d; simpl; [done|by f_equal..]. Qed.

Lemma replace_zeros new k t :
  replace_from ".csv" new 0 (repeat_char "0" k +:+ t)
  = repeat_char "0" k +:+ replace_from ".csv" new 0 t.
Proof. induction k as [|k IH]; simpl; [done|]. by f_equal. Qed.

(** The pair-count file of a chunk file, in closed form. *)
Lemma count_file_name_subfile n :
  count_file_name (subfile_name n)
  = "subdata_" +:+ rjust 3 "0" (str n) +:+ "_tuplecount.csv".
Proof.
  unfold count_file_name, replace, subfile_name, rjust, str.
  rewrite !string_app_assoc. simpl. do 8 f_equal.
  by rewrite replace_zeros, replace_digits.
Qed.
End CountFileNames.

Lemma count_file_name_inj n m :
  count_file_name (subfile_name n) = count_file_name (subfile_name m) → n = m.
Proof.
  rewrite !count_file_name_subfile. intros H. simpl in H. simplify_eq.
  apply string_app_inv_tail in H. by apply rjust_str_inj in H.
Qed.

(** X18. The pair-count file of chunk file [subdata_NNN.csv] is
    [subdata_NNN_tuplecount.csv], for every counter, and different chunk
    files have different pair-count files. *)
Theorem count_file_names n m :
  count_file_name (subfile_name n)
  = "subdata_" +:+ rjust 3 "0" (str n) +:+ "_tuplecount.csv" ∧
  (n ≠ m → count_file_name (subfile_name n) ≠ count_file_name (subfile_name m)).
Proof.
  split; [apply count_file_name_subfile|].
  intros Hne Heq. by apply Hne, count_file_name_inj.
Qed.

Lemma count_file_names_witness :
  count_file_name (subfile_name 12) = "subdata_012_tuplecount.csv" ∧
  count_file_name (subfile_name 12) ≠ count_file_name (subfile_name 1200).
Proof.
  destruct (count_file_names 12 1200) as [Hname Hne].
  split; [exact Hname|]. apply Hne. lia.
Defined.

(** Counting further chunk files leaves the other pair-count files alone. *)
Lemma count_subfiles_other subdatafiles : ∀ wd wd' name,
  count_subfiles subdatafiles wd = Ok wd' →
  (∀ f, f ∈ subdatafiles → count_file_name f ≠ name) →
  tuplecount wd' !! name = tuplecount wd !! name.
Proof.
  induction subdatafiles as [|subdatafile rest IH]; intros wd wd' name Hcount Hname.
  { simpl in Hcount. by simplify_eq. }
  cbn [count_subfiles] in Hcount.
  destruct (proc_baskets (subdata wd !!! subdatafile)) as [basket_out|e]; [|done].
  simpl in Hcount. rewrite (IH _ _ name Hcount).
  - simpl. rewrite lookup_insert_ne; [done|]. apply Hname, elem_of_cons. by left.
  - intros f Hf. apply Hname, elem_of_cons. by right.
Qed.

Lemma count_subfiles_per_file subdatafiles : ∀ wd wd',
  count_subfiles subdatafiles wd = Ok wd' →
  (∀ f1 f2, f1 ∈ subdatafiles → f2 ∈ subdatafiles →
            count_file_name f1 = count_file_name f2 → f1 = f2) →
  ∀ f, f ∈ subdatafiles →
    ∃ fob, proc_baskets (subdata wd !!! f) = Ok fob ∧
           tuplecount wd' !! count_file_name f = Some (tuple_count_rows fob).
Proof.
  induction subdatafiles as [|subdatafile rest IH]; intros wd wd' Hcount Hinj f Hf.
  { by apply elem_of_nil in Hf. }
  cbn [count_subfiles] in Hcount.
  destruct (proc_baskets (subdata wd !!! subdatafile)) as [basket_out|e] eqn:E;
    [|done].
  simpl in Hcount.
  destruct (decide (f ∈ rest)) as [Hrest|Hrest].
  - destruct (IH _ _ Hcount) with (f := f) as (fob & Hok & Hfile); [|done|].
    + intros f1 f2 H1 H2. apply Hinj; apply elem_of_cons; by right.
    + by exists fob.
  - apply elem_of_cons in Hf as [->|Hf]; [|done].
    exists basket_out. split; [done|].
    rewrite (count_subfiles_other _ _ _ (count_file_name subdatafile) Hcount).
    + simpl. by rewrite lookup_insert_eq.
    + intros f' Hf' Heq. apply Hrest.
      rewrite <- (Hinj f' subdatafile); [done| | |done];
        apply elem_of_cons; auto.
Qed.

(** X19. After the counting loop every chunk file has a pair-count file
    of its own, and that file holds the rows counted for the baskets
    [proc_baskets] assembles from this chunk file alone. *)
Theorem count_files_per_chunk counters wd wd' :
  count_subfiles (subfile_name <$> counters) wd = Ok wd' →
  ∀ n, n ∈ counters →
    ∃ fob, proc_baskets (subdata wd !!! subfile_name n) = Ok fob ∧
           tuplecount wd' !! count_file_name (subfile_name n)
           = Some (tuple_count_rows fob).
Proof.
  intros Hcount n Hn.
  apply (count_subfiles_per_file _ _ _ Hcount).
  - intros f1 f2 (n1 & -> & _)%list_elem_of_fmap (n2 & -> & _)%list_elem_of_fmap Heq.
    by rewrite (count_file_name_inj n1 n2 Heq).
  - by apply list_elem_of_fmap_2.
Qed.

Lemma count_files_per_chunk_witness :
  ∃ fob, proc_baskets (subdata scenario_chunks !!! subfile_name 2) = Ok fob ∧
         tuplecount
           (WorkDir (subdata scenario_chunks)
              {["subdata_001_tuplecount.csv" := [CountRow "A" "B" 1];
                "subdata_002_tuplecount.csv" := [CountRow "A" "B" 1; CountRow "A" "C" 1]]}
              None)
           !! count_file_name (subfile_name 2)
         = Some (tuple_count_rows fob).
Proof.
  apply (count_files_per_chunk [1; 2]%nat scenario_chunks).
  - vm_compute. reflexivity.
  - apply elem_of_cons. right. apply elem_of_cons. by left.
Defined.

(** ** The order in which the merger takes the files *)

Lemma sorted_of_Sorted {A} (leb : A → A → bool) l :
  Sorted (λ a b, leb a b = true) l → sorted leb l = l.
Proof.
  induction 1 as [|x l _ IH Hhd]; [done|].
  simpl. change (foldr (insort leb) [] l) with (sorted leb l). rewrite IH.
  destruct Hhd as [|y l Hxy]; [done|]. simpl. by rewrite Hxy.
Qed.

Lemma Sorted_fmap_seq {A} (leb : A → A → bool) (g : nat → A) n : ∀ k,
  (∀ i, (k ≤ i)%nat → (S i < k + n)%nat → leb (g i) (g (S i)) = true) →
  Sorted (λ a b, leb a b = true) (g <$> seq k n).
Proof.
  induction n as [|n IH]; intros k Hadj; [constructor|].
  cbn [seq]. rewrite fmap_cons. constructor.
  - apply IH. intros i Hi Hlt. apply Hadj; lia.
  - destruct n as [|n]; [constructor|]. cbn [seq]. rewrite fmap_cons.
    constructor. apply Hadj; lia.
Qed.

Lemma count_file_names_adjacent i :
  (1 ≤ i)%nat → (S i < 1000)%nat →
  String.leb (count_file_name (subfile_name i))
    (count_file_name (subfile_name (S i))) = true.
Proof.
  intros H1 H2.
  assert (Forall (λ i, String.leb (count_file_name (subfile_name i))
                         (count_file_name (subfile_name (S i))) = true)
            (seq 1 998)) as Hall.
  { refine (bool_decide_unpack _ _). vm_compute. exact I. }
  apply (proj1 (Forall_forall _ _) Hall). apply elem_of_seq. lia.
Qed.

(** X20. Up to 999 chunks the merger takes the pair-count files in the
    order of their counters: in whatever order the names are found,
    [sort()] puts the files of chunks 1 to [n] in counting order as long as
    [n ≤ 999].  The three padded digits end there: the file of chunk 1000
    sorts before the file of chunk 101. *)
Theorem merge_order_below_1000 n l :
  (n ≤ 999)%nat →
  l ≡ₚ (λ i, count_file_name (subfile_name i)) <$> seq 1 n →
  sorted String.leb l = (λ i, count_file_name (subfile_name i)) <$> seq 1 n ∧
  sorted String.leb [count_file_name (subfile_name 101);
                     count_file_name (subfile_name 1000)]
  = [count_file_name (subfile_name 1000); count_file_name (subfile_name 101)].
Proof.
  intros Hn Hperm. split; [|vm_compute; reflexivity].
  rewrite (sorted_strings_permutation _ _ Hperm).
  apply sorted_of_Sorted, Sorted_fmap_seq.
  intros i Hi Hlt. apply count_file_names_adjacent; lia.
Qed.

Lemma merge_order_below_1000_witness :
  sorted String.leb
    ["subdata_003_tuplecount.csv"; "subdata_001_tuplecount.csv";
     "subdata_002_tuplecount.csv"]
  = ["subdata_001_tuplecount.csv"; "subdata_002_tuplecount.csv";
     "subdata_003_tuplecount.csv"].
Proof.
  apply (proj1 (merge_order_below_1000 3
                  ["subdata_003_tuplecount.csv"; "subdata_001_tuplecount.csv";
                   "subdata_002_tuplecount.csv"]
                  ltac:(lia)
                  ltac:(apply (Permutation_cons_append
                                 ["subdata_001_tuplecount.csv";
                                  "subdata_002_tuplecount.csv"]
                                 "subdata_003_tuplecount.csv")))).
Defined.

(** ** Runs on an input that breaks *)

(** One pass of the inner loop writes the same lines whether the input
    ends after [ls] or breaks there; only the way the loop is left
    differs. *)
Lemma fill_subfile_truncated line_limit rest : ∀ ls line_counter current_line out_f,
  Forall (λ l, l ≠ EmptyString) ls → current_line ≠ EmptyString →
  ∃ out_f',
    (fill_subfile line_limit (Line <$> ls) line_counter current_line out_f).1 = out_f' ∧
    (fill_subfile line_limit ((Line <$> ls) ++ ReadError :: rest)
       line_counter current_line out_f).1 = out_f' ∧
    ((fill_subfile line_limit (Line <$> ls) line_counter current_line out_f).2
       = Ok (EmptyString, []) ∧
     (fill_subfile line_limit ((Line <$> ls) ++ ReadError :: rest)
        line_counter current_line out_f).2 = Raise OSError
     ∨ ∃ c' ls',
         c' ≠ EmptyString ∧ Forall (λ l, l ≠ EmptyString) ls' ∧
         (fill_subfile line_limit (Line <$> ls) line_counter current_line out_f).2
           = Ok (c', Line <$> ls') ∧
         (fill_subfile line_limit ((Line <$> ls) ++ ReadError :: rest)
            line_counter current_line out_f).2
           = Ok (c', (Line <$> ls') ++ ReadError :: rest)).
Proof.
  induction ls as [|s ls IH]; intros line_counter current_line out_f Hne Hcur.
  - simpl. destruct (line_counter <=? line_limit) eqn:Hle; simpl.
    + eexists. split_and!; [done..|]. by left.
    + eexists. split_and!; [done..|]. right. by exists current_line, [].
  - apply Forall_cons in Hne as [Hs Hne]. rewrite fmap_cons.
    cbn [app fill_subfile].
    destruct (line_counter <=? line_limit) eqn:Hle.
    2:{ eexists. split_and!; [done..|]. right.
        exists current_line, (s :: ls). split_and!; [done| |done..].
        by constructor. }
    rewrite (proj2 (String.eqb_neq _ _) Hs).
    destruct ((line_counter =? line_limit) && (s =? current_line)%string).
    + apply (IH line_counter s (out_f ++ [current_line]) Hne Hs).
    + apply (IH (line_counter + 1) s (out_f ++ [current_line]) Hne Hs).
Qed.

Lemma chunk_loop_truncated line_limit rest fuel : ∀ ls current_line k files,
  Forall (λ l, l ≠ EmptyString) ls → current_line ≠ EmptyString →
  match chunk_loop fuel line_limit (Line <$> ls) current_line k files with
  | Some (files', _) =>
      chunk_loop fuel line_limit ((Line <$> ls) ++ ReadError :: rest)
        current_line k files = Some (files', Raise OSError)
  | None =>
      chunk_loop fuel line_limit ((Line <$> ls) ++ ReadError :: rest)
        current_line k files = None
  end.
Proof.
  induction fuel as [|fuel IH]; intros ls current_line k files Hne Hcur.
  { simpl. by rewrite (proj2 (String.eqb_neq _ _) Hcur). }
  cbn [chunk_loop]. rewrite (proj2 (String.eqb_neq _ _) Hcur).
  destruct (fill_subfile_truncated line_limit rest ls 0 current_line
              (files !!! subfile_name k) Hne Hcur)
    as (out_f' & H1 & H2 & [[Hr1 Hr2]|(c' & ls' & Hc' & Hne' & Hr1 & Hr2)]).
  - destruct (fill_subfile line_limit (Line <$> ls) 0 current_line _)
      as [o1 r1], (fill_subfile line_limit ((Line <$> ls) ++ _) 0 current_line _)
      as [o2 r2].
    simpl in *. subst. by rewrite chunk_loop_eof.
  - destruct (fill_subfile line_limit (Line <$> ls) 0 current_line _)
      as [o1 r1], (fill_subfile line_limit ((Line <$> ls) ++ _) 0 current_line _)
      as [o2 r2].
    simpl in *. subst.
    apply (IH ls' c' (S k) (<[subfile_name k := out_f']> files) Hne' Hc').
Qed.

(** X21. A read failure changes nothing but the flag nobody looks at.
    On an input that breaks after some lines, the run does exactly what it
    does on the input that ends after these lines: same chunk files, same
    counts, same report, and no error reaches the caller.  The lines behind
    the failure are never read. *)
Theorem read_failure_goes_unnoticed lines rest fuel line_limit wd :
  Forall (λ l, l ≠ EmptyString) lines →
  main fuel ((Line <$> lines) ++ ReadError :: rest) line_limit wd
  = main fuel (Line <$> lines) line_limit wd.
Proof.
  intros Hne. unfold main, create_subfiles.
  destruct lines as [|c ls]; [by simpl; rewrite chunk_loop_eof|].
  apply Forall_cons in Hne as [Hc Hne]. rewrite fmap_cons. cbn [app].
  pose proof (chunk_loop_truncated line_limit rest fuel ls c 1%nat
                (subdata (remove_subdata wd)) Hne Hc) as H.
  destruct (chunk_loop fuel line_limit (Line <$> ls) c 1 _) as [[files r]|];
    rewrite H; [|done].
  by destruct r as [[]|e].
Qed.

Lemma read_failure_goes_unnoticed_witness :
  main 10 ((Line <$> four_baskets) ++ ReadError :: [Line (line "9,Z")]) 3 empty_dir
  = main 10 (Line <$> four_baskets) 3 empty_dir.
Proof.
  apply (read_failure_goes_unnoticed four_baskets). by repeat constructor.
Defined.

(** ** Runs in another order of hashes and directory listings *)

Lemma deduped_in_eq set_order d :
  iterates_set set_order → deduped_in set_order d = deduped d.
Proof.
  intros Hset. unfold deduped_in, deduped. apply list_fmap_ext.
  intros _ key _. f_equal. apply sorted_strings_permutation, Hset.
Qed.

Lemma proc_baskets_in_eq set_order f :
  iterates_set set_order → proc_baskets_in set_order f = proc_baskets f.
Proof.
  intros Hset. unfold proc_baskets_in, proc_baskets, baskets_of_rows_in,
    baskets_of_rows.
  destruct (read_baskets (csv_reader f) ∅) as [d|e]; [|done].
  simpl. by rewrite deduped_in_eq.
Qed.

Lemma count_subfiles_in_eq set_order subdatafiles : ∀ wd,
  iterates_set set_order →
  count_subfiles_in set_order subdatafiles wd = count_subfiles subdatafiles wd.
Proof.
  induction subdatafiles as [|subdatafile rest IH]; intros wd Hset; [done|].
  cbn [count_subfiles_in count_subfiles]. rewrite proc_baskets_in_eq by done.
  destruct (proc_baskets (subdata wd !!! subdatafile)); [|done].
  simpl. by apply IH.
Qed.

Lemma proc_subdata_in_eq glob wd :
  lists_files glob → proc_subdata_in glob wd = proc_subdata wd.
Proof.
  intros Hglob. unfold proc_subdata_in, proc_subdata.
  by rewrite (sorted_strings_permutation _ _ (Hglob _ (tuplecount wd))).
Qed.

(** Two chunk files with count files of their own can be counted in
    either order. *)
Lemma count_subfiles_swap x y rest wd :
  (x ≠ y → count_file_name x ≠ count_file_name y) →
  count_subfiles (x :: y :: rest) wd = count_subfiles (y :: x :: rest) wd.
Proof.
  intros Hinj. cbn [count_subfiles].
  destruct (proc_baskets (subdata wd !!! x)) as [bx|ex] eqn:Ex;
    destruct (proc_baskets (subdata wd !!! y)) as [b_y|ey] eqn:Ey;
    cbn [bind count_product_tuples subdata]; rewrite ?Ex, ?Ey; cbn [bind];
    [|done..|].
  - f_equal. unfold count_product_tuples. cbn [subdata tuplecount report].
    f_equal. destruct (decide (x = y)) as [->|Hne].
    + by assert (bx = b_y) as -> by congruence.
    + apply insert_insert_ne. by apply not_eq_sym, Hinj.
  - apply proc_baskets_raise in Ex as [-> _].
    apply proc_baskets_raise in Ey as [-> _]. done.
Qed.

Lemma count_subfiles_perm names1 names2 :
  names1 ≡ₚ names2 →
  (∀ x y, x ∈ names1 → y ∈ names1 → x ≠ y →
          count_file_name x ≠ count_file_name y) →
  ∀ wd, count_subfiles names1 wd = count_subfiles names2 wd.
Proof.
  induction 1 as [|x l1 l2 Hperm IH|x y l|l1 l2 l3 H12 IH12 H23 IH23];
    intros Hinj wd.
  - done.
  - cbn [count_subfiles].
    destruct (proc_baskets (subdata wd !!! x)) as [bx|ex]; [|done]. simpl.
    apply IH. intros n1 n2 H1 H2. apply Hinj; by apply elem_of_cons; right.
  - apply count_subfiles_swap. intros Hne.
    apply Hinj; [apply elem_of_cons; by left|
                 apply elem_of_cons; right; apply elem_of_cons; by left|done].
  - rewrite IH12 by done. apply IH23.
    intros n1 n2 H1 H2. apply Hinj; by rewrite H12.
Qed.

(** The chunker opens files under its own names only. *)
Lemma chunk_loop_names line_limit fuel :
  ∀ gzip_f current_line subfile_counter files files' r,
  chunk_loop fuel line_limit gzip_f current_line subfile_counter files
    = Some (files', r) →
  ∀ name, is_Some (files' !! name) →
    is_Some (files !! name) ∨ ∃ j, name = subfile_name j.
Proof.
  induction fuel as [|fuel IH];
    intros gzip_f current_line k files files' r Hloop name Hname;
    cbn [chunk_loop] in Hloop;
    destruct (current_line =? "")%string; simplify_eq; auto.
  destruct (fill_subfile line_limit gzip_f 0 current_line (files !!! subfile_name k))
    as [out_f [[c' gz']|e]].
  - destruct (IH _ _ _ _ _ _ Hloop name Hname) as [Hin|Hj]; [|by right].
    apply lookup_insert_is_Some in Hin as [<-|[_ Hin]]; [right; by exists k|by left].
  - simplify_eq.
    apply lookup_insert_is_Some in Hname as [<-|[_ Hin]]; [right; by exists k|by left].
Qed.

Lemma create_subfiles_names fuel gzip_file line_limit wd flag wd' :
  create_subfiles fuel gzip_file line_limit wd = Some (flag, wd') →
  ∀ name, is_Some (subdata wd' !! name) → ∃ j, name = subfile_name j.
Proof.
  unfold create_subfiles. intros Hcreate name Hname.
  assert (is_Some ((∅ : gmap string (list string)) !! name) → False) as Hempty.
  { rewrite lookup_empty. by intros [? ?]. }
  destruct gzip_file as [|[s|] rest]; simpl in Hcreate.
  - rewrite chunk_loop_eof in Hcreate. simplify_eq. by destruct Hempty.
  - destruct (chunk_loop fuel line_limit rest s 1 ∅) as [[files r]|] eqn:E;
      [|done].
    assert (subdata wd' = files) as <- by (destruct r; by simplify_eq).
    destruct (chunk_loop_names _ _ _ _ _ _ _ _ E name Hname) as [Hin|Hj];
      [by destruct Hempty|done].
  - simplify_eq. by destruct Hempty.
Qed.

(** The run does not depend on the order in which a set is iterated or a
    directory is listed. *)
Lemma main_in_eq set_order glob fuel gzip_file line_limit wd :
  iterates_set set_order → lists_files glob →
  main_in set_order glob fuel gzip_file line_limit wd
  = main fuel gzip_file line_limit wd.
Proof.
  intros Hset Hglob. unfold main_in, main.
  destruct (create_subfiles fuel gzip_file line_limit wd) as [[flag wd1]|] eqn:E;
    [|done].
  f_equal. rewrite count_subfiles_in_eq by done.
  rewrite (count_subfiles_perm _ _ (Hglob _ (subdata wd1))).
  - destruct (count_subfiles _ wd1) as [wd2|e]; [|done].
    simpl. by rewrite proc_subdata_in_eq.
  - intros x y Hx Hy Hne Heq. apply Hne.
    assert (∀ z, z ∈ glob _ (subdata wd1) → ∃ j, z = subfile_name j) as Hnames.
    { intros z Hz. rewrite (Hglob _ (subdata wd1)) in Hz.
      apply list_elem_of_fmap in Hz as ([z' v] & -> & Hz).
      apply elem_of_map_to_list in Hz.
      apply (create_subfiles_names _ _ _ _ _ _ E). by exists v. }
    destruct (Hnames x Hx) as [i ->], (Hnames y Hy) as [j ->].
    f_equal. by apply count_file_name_inj.
Qed.

Lemma same_reports_refl outcome : same_reports outcome outcome.
Proof. by destruct outcome. Qed.

(** C8, as the code has it.  Two runs on the same input and line budget
    that start from the same state of the report file leave the same rows
    in the report, whatever chunk and pair-count files lay around before
    either run and in whatever order each run iterates its sets and lists
    its directory; for a line budget that is not negative both runs end. *)
Theorem rerun_same_report set1 set2 glob1 glob2 gzip_file line_limit wd1 wd2 :
  iterates_set set1 → iterates_set set2 → lists_files glob1 → lists_files glob2 →
  report wd1 = report wd2 →
  (∀ fuel1 fuel2 outcome1 outcome2,
     main_in set1 glob1 fuel1 gzip_file line_limit wd1 = Some outcome1 →
     main_in set2 glob2 fuel2 gzip_file line_limit wd2 = Some outcome2 →
     same_reports outcome1 outcome2) ∧
  (0 ≤ line_limit →
   ∀ fuel, (length gzip_file ≤ fuel)%nat →
     is_Some (main_in set1 glob1 fuel gzip_file line_limit wd1) ∧
     is_Some (main_in set2 glob2 fuel gzip_file line_limit wd2)).
Proof.
  intros Hset1 Hset2 Hglob1 Hglob2 Hrep. split.
  - intros fuel1 fuel2 o1 o2 H1 H2.
    rewrite main_in_eq in H1, H2 by done.
    rewrite (main_stale _ _ _ wd1 wd2 Hrep) in H1.
    apply (main_mono _ (fuel1 `max` fuel2)) in H1; [|lia].
    apply (main_mono _ (fuel1 `max` fuel2)) in H2; [|lia].
    simplify_eq. apply same_reports_refl.
  - intros Hlimit fuel Hfuel. rewrite !main_in_eq by done.
    destruct (main_terminates gzip_file line_limit wd1 Hlimit) as [o1 Ho1].
    destruct (main_terminates gzip_file line_limit wd2 Hlimit) as [o2 Ho2].
    by rewrite Ho1, Ho2.
Qed.

Lemma rerun_same_report_witness :
  ∃ wd1 wd2,
    main_in remove_dups (λ A m, (map_to_list m).*1) 10
      (Line <$> four_baskets) 3 empty_dir = Some (Ok wd1) ∧
    main_in (λ l, reverse (remove_dups l)) (λ A m, reverse (map_to_list m).*1) 10
      (Line <$> four_baskets) 3 scenario_chunks = Some (Ok wd2) ∧
    report_rows wd1 ≡ₚ report_rows wd2.
Proof.
  eexists _, _. split; [vm_compute; reflexivity|]. split; [vm_compute; reflexivity|].
  refine (proj2 (proj1 (rerun_same_report
            remove_dups (λ l, reverse (remove_dups l))
            (λ A m, (map_to_list m).*1) (λ A m, reverse (map_to_list m).*1)
            (Line <$> four_baskets) 3 empty_dir scenario_chunks
            _ _ _ _ eq_refl) 10%nat 10%nat (Ok _) (Ok _) _ _)).
  - by intros l.
  - intros l. apply reverse_Permutation.
  - by intros A m.
  - intros A m. apply reverse_Permutation.
  - vm_compute. reflexivity.
  - vm_compute. reflexivity.
Defined.


